(** * MAGAN (Margin Adaptation GAN): model graph and losses

    A shallow embedding of [MAGAN/magan_model.py].

    The Python file builds a TensorFlow-1 graph: calling a layer
    registers the layer's variables in the variable store (under the
    current [tf.variable_scope]) and returns a symbolic tensor, which
    a session later evaluates for a feed of the placeholders and the
    current values of the variables.  The embedding keeps both halves:

    - graph construction is a state-and-error computation over the
      variable store ([Graph]); it can raise [AssertionError] (the
      [assert] of [generator]) or [ValueError] (a variable created
      twice, or reused before it exists);
    - a symbolic tensor is a function of the run-time environment
      ([Node]): the placeholders [x], [z], [m] and the variable values.

    Scalars of [tf.float32] are idealised as real numbers. *)

From Stdlib Require Import Reals Lra ZArith QArith Qfield.
From stdpp Require Import base list strings gmap.

#[local] Open Scope R_scope.

(** ** Scalars and element-wise activations *)

(** A tensor is represented by its elements in row-major order. *)
Definition Tensor : Type := list R.

(** [tf.nn.leaky_relu(x)], with the default slope [alpha = 0.2]:
    [max(alpha * x, x)]. *)
Definition leaky_relu_alpha : R := 2 / 10.

Definition leaky_relu1 (v : R) : R := Rmax (leaky_relu_alpha * v) v.

(** [tf.nn.sigmoid]: [1 / (1 + exp(-x))]. *)
Definition sigmoid1 (v : R) : R := 1 / (1 + exp (- v)).

(** [tf.nn.tanh] is [Rtrigo_def.tanh]: [sinh x / cosh x]. *)
Definition tanh1 (v : R) : R := tanh v.

Definition leaky_relu (t : Tensor) : Tensor := map leaky_relu1 t.
Definition sigmoid (t : Tensor) : Tensor := map sigmoid1 t.
Definition tf_tanh (t : Tensor) : Tensor := map tanh1 t.

(** Modelled from the spec: [tfutil.mse_loss], the mean-squared error
    of two tensors ("mean-squared pixel-wise difference between an
    input image and the discriminator's autoencoded output for it"):
    the mean of the element-wise squared differences.  The two
    tensors have the same shape in every graph that TensorFlow
    accepts; [zip_with] stops at the shorter one. *)
Definition squared_difference (x y : Tensor) : Tensor :=
  zip_with (fun a b => (a - b) * (a - b)) x y.

Definition reduce_sum (t : Tensor) : R := foldr Rplus 0 t.

Definition reduce_mean (t : Tensor) : R := reduce_sum t / INR (length t).

Definition mse_loss (x y : Tensor) : R := reduce_mean (squared_difference x y).

(** ** Configuration: the keyword arguments of [MAGAN.__init__] *)

Record Config : Type := mkConfig {
  batch_size : Z;
  height : Z;
  width : Z;
  channel : Z;
  n_classes : Z;
  sample_num : Z;
  sample_size : Z;
  n_input : Z;
  df_dim : Z;
  gf_dim : Z;
  fc_unit : Z;
  z_dim : Z;
  g_lr : R;
  d_lr : R
}.

Definition default_config : Config :=
  {| batch_size := 64; height := 28; width := 28; channel := 1;
     n_classes := 10; sample_num := 10 * 10; sample_size := 10;
     n_input := 784; df_dim := 64; gf_dim := 64; fc_unit := 512;
     z_dim := 128; g_lr := 2 / 10000; d_lr := 2 / 10000 |}.

(** [self.beta1 = 0.5], [self.beta2 = 0.9] *)
Definition beta1 : R := 5 / 10.
Definition beta2 : R := 9 / 10.

(** ** The variable store and graph construction *)

Record Var : Type := mkVar { v_name : string; v_trainable : bool }.

(** Variables in creation order, as the graph's collections keep them. *)
Definition VarStore : Type := list Var.

Inductive Error : Type := AssertionError | ValueError.

Inductive Result (A : Type) : Type :=
| Ok (a : A)
| Raise (e : Error).
Arguments Ok {A} a.
Arguments Raise {A} e.

(** The current [tf.variable_scope]: the prefix put before variable
    names (the scope's name followed by a slash, empty at top level)
    and the reuse flag. *)
Record Scope : Type := mkScope { sc_prefix : string; sc_reuse : bool }.

Definition root_scope : Scope := {| sc_prefix := ""; sc_reuse := false |}.

(** Entering [tf.variable_scope(name, reuse=reuse)]: [reuse=None]
    inherits the flag of the enclosing scope. *)
Definition variable_scope (name : string) (reuse : option bool) (sc : Scope) : Scope :=
  {| sc_prefix := sc_prefix sc +:+ name +:+ "/";
     sc_reuse := match reuse with Some true => true | _ => sc_reuse sc end |}.

(** A graph-building computation reads the current scope and updates
    the variable store.  The store is global mutable state: what was
    created before an exception stays created. *)
Definition Graph (A : Type) : Type := Scope -> VarStore -> Result A * VarStore.

Definition ret {A} (a : A) : Graph A := fun _ st => (Ok a, st).

Definition bind {A B} (m : Graph A) (f : A -> Graph B) : Graph B :=
  fun sc st =>
    match m sc st with
    | (Ok a, st1) => f a sc st1
    | (Raise e, st1) => (Raise e, st1)
    end.

Definition raise {A} (e : Error) : Graph A := fun _ st => (Raise e, st).

Declare Scope graph_scope.
Delimit Scope graph_scope with graph.
Notation "x <- m ;; k" := (bind m (fun x => k))
  (at level 100, m at next level, right associativity) : graph_scope.
Notation "m ;;; k" := (bind m (fun _ => k))
  (at level 100, right associativity) : graph_scope.
#[local] Open Scope graph_scope.

(** [with tf.variable_scope(name, reuse=reuse): body] *)
Definition with_variable_scope {A} (name : string) (reuse : option bool)
    (body : Graph A) : Graph A :=
  fun sc st => body (variable_scope name reuse sc) st.

(** Python's [assert]. *)
Definition assert_ (b : bool) : Graph unit :=
  fun _ st => if b then (Ok tt, st) else (Raise AssertionError, st).

Definition var_exists (n : string) (st : VarStore) : bool :=
  existsb (fun v => String.eqb (v_name v) n) st.

(** [tf.get_variable]: in a reusing scope the variable must exist and
    is returned; otherwise it must not exist and is created. *)
Definition get_variable (name : string) (trainable : bool) : Graph string :=
  fun sc st =>
    let full := sc_prefix sc +:+ name in
    if sc_reuse sc then
      if var_exists full st then (Ok full, st) else (Raise ValueError, st)
    else
      if var_exists full st then (Raise ValueError, st)
      else (Ok full, st ++ [mkVar full trainable]).

Fixpoint mapM {A B} (f : A -> Graph B) (l : list A) : Graph (list B) :=
  match l with
  | [] => ret []
  | a :: l' => b <- f a ;; bs <- mapM f l' ;; ret (b :: bs)
  end.

(** [tf.trainable_variables()] *)
Definition trainable_variables (st : VarStore) : list string :=
  v_name <$> List.filter v_trainable st.

Definition get_trainable_variables : Graph (list string) :=
  fun _ st => (Ok (trainable_variables st), st).

(** Python's [str.startswith]. *)
Definition startswith (s p : string) : bool := String.prefix p s.

(** ** Run time: placeholders, variable values, symbolic tensors *)

Record Env : Type := mkEnv {
  feed_x : Tensor;
  feed_z : Tensor;
  feed_m : R;
  vars : gmap string Tensor
}.

Definition Node : Type := Env -> Tensor.
Definition Scalar : Type := Env -> R.
(** A training operation computes the next variable values. *)
Definition Op : Type := Env -> gmap string Tensor.

Definition weights (theta : gmap string Tensor) (names : list string)
    : list (option Tensor) :=
  (fun n => theta !! n) <$> names.

Definition with_vars (e : Env) (theta : gmap string Tensor) : Env :=
  {| feed_x := feed_x e; feed_z := feed_z e; feed_m := feed_m e; vars := theta |}.

Definition placeholder_x : Node := feed_x.
Definition placeholder_z : Node := feed_z.
Definition placeholder_m : Scalar := feed_m.

Definition nn_leaky_relu (x : Node) : Node := fun e => leaky_relu (x e).
Definition nn_sigmoid (x : Node) : Node := fun e => sigmoid (x e).
Definition nn_tanh (x : Node) : Node := fun e => tf_tanh (x e).

Definition t_mse_loss (x y : Node) : Scalar := fun e => mse_loss (x e) (y e).

(** ** The tensor substrate

    The layers of [tfutil] ([conv2d], [deconv2d], [dense],
    [batch_norm]) and the TensorFlow kernels under them are not part
    of the model file.  They are taken as parameters: for each kind of
    layer the variables it owns (name inside the layer's scope, and
    whether it is trainable) and the function it computes from the
    values of these variables and its input; [tf.reshape]; and the
    value Adam assigns to a variable, given the learning rate, the two
    momentum coefficients, the loss as a function of the variables and
    their current values. *)

Inductive LayerKind : Type := Conv2d | Deconv2d | Dense | BatchNorm.

Record Substrate : Type := mkSubstrate {
  layer_vars : LayerKind -> list (string * bool);
  conv2d_op : list (option Tensor) -> Z -> Z -> Z -> Tensor -> Tensor;
  deconv2d_op : list (option Tensor) -> Z -> Z -> Z -> Tensor -> Tensor;
  dense_op : list (option Tensor) -> Z -> Tensor -> Tensor;
  batch_norm_op : list (option Tensor) -> option bool -> Tensor -> Tensor;
  reshape_op : list Z -> Tensor -> Tensor;
  adam_step : R -> R -> R -> (gmap string Tensor -> R) ->
              gmap string Tensor -> string -> Tensor
}.

(** The attributes of a [MAGAN] object that [build_magan] sets. *)
Record MAGAN : Type := mkMAGAN {
  g : Node;
  g_test : Node;
  d_real_loss : Scalar;
  d_fake_loss : Scalar;
  d_loss : Scalar;
  g_loss : Scalar;
  d_real_op : Op;
  d_op : Op;
  g_op : Op
}.

(** One optimizer step assigns a new value to each variable of
    [var_list] and to no other. *)
Definition apply_updates (step : string -> Tensor) (var_list : list string)
    (theta : gmap string Tensor) : gmap string Tensor :=
  foldr (fun n acc => <[n := step n]> acc) theta var_list.

Section Network.
Context (tf : Substrate) (cfg : Config).

(** The variables of the layer called [name], looked up or created
    in the layer's own scope. *)
Definition layer_variables (name : string) (k : LayerKind) : Graph (list string) :=
  with_variable_scope name None
    (mapM (fun v => get_variable (fst v) (snd v)) (layer_vars tf k)).

(** A layer of [tfutil]: its variables, then its kernel applied to
    their values and to the input.  The checks a tensor library makes
    on sizes and shapes are not modelled: a layer raises only through
    its variables. *)
Definition layer (k : LayerKind) (op : list (option Tensor) -> Tensor -> Tensor)
    (x : Node) (name : string) : Graph Node :=
  ws <- layer_variables name k ;;
  ret (fun e => op (weights (vars e) ws) (x e)).

Definition conv2d (x : Node) (f k s : Z) (name : string) : Graph Node :=
  layer Conv2d (fun ws => conv2d_op tf ws f k s) x name.

Definition deconv2d (x : Node) (f k s : Z) (name : string) : Graph Node :=
  layer Deconv2d (fun ws => deconv2d_op tf ws f k s) x name.

Definition dense (x : Node) (units : Z) (name : string) : Graph Node :=
  layer Dense (fun ws => dense_op tf ws units) x name.

(** [is_train = None]: the caller leaves the default of [tfutil]. *)
Definition batch_norm (x : Node) (is_train : option bool) (name : string) : Graph Node :=
  layer BatchNorm (fun ws => batch_norm_op tf ws is_train) x name.

Definition tf_reshape (x : Node) (shape : list Z) : Node :=
  fun e => reshape_op tf shape (x e).

(** [tf.train.AdamOptimizer(...).minimize(loss, var_list=var_list)];
    an empty [var_list] is refused ("No variables to optimize").  The
    optimizer's own bookkeeping variables (moment slots, beta powers),
    which are not trainable, are not kept in the store, and the state
    they hold is folded into [adam_step]. *)
Definition minimize (lr b1 b2 : R) (loss : Scalar) (var_list : list string) : Graph Op :=
  match var_list with
  | [] => raise ValueError
  | _ :: _ =>
      ret (fun e =>
             apply_updates
               (adam_step tf lr b1 b2 (fun theta => loss (with_vars e theta)) (vars e))
               var_list (vars e))
  end.

Definition encoder (x : Node) (reuse : option bool) : Graph Node :=
  with_variable_scope "encoder" reuse (
    x <- conv2d x (df_dim cfg * 1) 4 2 "enc-conv2d-1" ;;
    let x := nn_leaky_relu x in

    x <- conv2d x (df_dim cfg * 2) 4 2 "enc-conv2d-2" ;;
    x <- batch_norm x None "enc-bn-1" ;;
    let x := nn_leaky_relu x in

    x <- conv2d x (df_dim cfg * 4) 4 2 "enc-conv2d-3" ;;
    x <- batch_norm x None "enc-bn-2" ;;
    let x := nn_leaky_relu x in

    ret x).

Definition decoder (x : Node) (reuse : option bool) : Graph Node :=
  with_variable_scope "decoder" reuse (
    x <- deconv2d x (df_dim cfg * 2) 4 2 "dec-deconv2d-1" ;;
    x <- batch_norm x None "dec-bn-1" ;;
    let x := nn_leaky_relu x in

    x <- deconv2d x (df_dim cfg * 1) 4 2 "dec-deconv2d-2" ;;
    x <- batch_norm x None "dec-bn-2" ;;
    let x := nn_leaky_relu x in

    x <- deconv2d x (channel cfg) 4 2 "dec-deconv2d-3" ;;
    let x := nn_sigmoid x in

    ret x).

Definition discriminator (x : Node) (reuse : option bool) : Graph (Node * Node) :=
  with_variable_scope "discriminator" reuse (
    embeddings <- encoder x reuse ;;
    decoded <- decoder embeddings reuse ;;

    ret (embeddings, decoded)).

(** [4 * 4 * self.gf_dim // 2] groups as [((4 * 4) * gf_dim) // 2]. *)
Definition generator (z : Node) (reuse : option bool) (is_train : bool) : Graph Node :=
  with_variable_scope "generator" reuse (
    assert_ (fc_unit cfg =? 4 * 4 * gf_dim cfg / 2)%Z ;;;

    x <- dense z (fc_unit cfg) "gen-fc-1" ;;
    x <- batch_norm x (Some is_train) "gen-bn-1" ;;
    let x := nn_leaky_relu x in

    let x := tf_reshape x [-1; 4; 4; gf_dim cfg / 2]%Z in

    x <- deconv2d x (gf_dim cfg * 4) 4 2 "gen-deconv2d-1" ;;
    x <- batch_norm x (Some is_train) "gen-bn-2" ;;
    let x := nn_leaky_relu x in

    x <- deconv2d x (gf_dim cfg * 2) 4 2 "gen-deconv2d-2" ;;
    x <- batch_norm x (Some is_train) "gen-bn-3" ;;
    let x := nn_leaky_relu x in

    x <- deconv2d x (channel cfg) 4 2 "gen-deconv2d-3" ;;
    let x := nn_tanh x in

    ret x).

Definition build_magan : Graph MAGAN :=
  (* Generator *)
  g <- generator placeholder_z None true ;;
  g_test <- generator placeholder_z (Some true) false ;;

  (* Discriminator *)
  real <- discriminator placeholder_x None ;;
  let d_real := snd real in
  fake <- discriminator g (Some true) ;;
  let d_fake := snd fake in

  let d_real_loss := t_mse_loss placeholder_x d_real in
  let d_fake_loss := t_mse_loss g d_fake in
  let d_loss : Scalar :=
    fun e => d_real_loss e + Rmax 0 (placeholder_m e - d_fake_loss e) in
  let g_loss := d_fake_loss in

  (* Optimizer *)
  t_vars <- get_trainable_variables ;;
  let d_params := List.filter (fun v => startswith v "d") t_vars in
  let g_params := List.filter (fun v => startswith v "g") t_vars in

  d_real_op <- minimize (d_lr cfg) beta1 beta2 d_real_loss d_params ;;
  d_op <- minimize (d_lr cfg) beta1 beta2 d_loss d_params ;;
  g_op <- minimize (g_lr cfg) beta1 beta2 g_loss g_params ;;

  ret {| g := g; g_test := g_test;
         d_real_loss := d_real_loss; d_fake_loss := d_fake_loss;
         d_loss := d_loss; g_loss := g_loss;
         d_real_op := d_real_op; d_op := d_op; g_op := g_op |}.

End Network.

(** ** What the networks compute

    The forward functions of the four networks, written from their
    description: the value of the output for given variable values
    [theta] and a given input, with the variables of every layer named
    by the scope the network was built in ([p] is the prefix of the
    enclosing scope). *)

Section Forward.
Context (tf : Substrate) (cfg : Config).

Definition layer_names (p name : string) (k : LayerKind) : list string :=
  (fun v => (p +:+ name +:+ "/") +:+ fst v) <$> layer_vars tf k.

Definition layer_store (p name : string) (k : LayerKind) : VarStore :=
  (fun v => mkVar ((p +:+ name +:+ "/") +:+ fst v) (snd v)) <$> layer_vars tf k.

Definition conv_layer (theta : gmap string Tensor) (q name : string)
    (f : Z) (x : Tensor) : Tensor :=
  conv2d_op tf (weights theta (layer_names q name Conv2d)) f 4 2 x.

Definition deconv_layer (theta : gmap string Tensor) (q name : string)
    (f : Z) (x : Tensor) : Tensor :=
  deconv2d_op tf (weights theta (layer_names q name Deconv2d)) f 4 2 x.

Definition bn_layer (theta : gmap string Tensor) (q name : string)
    (is_train : option bool) (x : Tensor) : Tensor :=
  batch_norm_op tf (weights theta (layer_names q name BatchNorm)) is_train x.

Definition dense_layer (theta : gmap string Tensor) (q name : string)
    (units : Z) (x : Tensor) : Tensor :=
  dense_op tf (weights theta (layer_names q name Dense)) units x.

(** Three strided convolutions, channels x1, x2, x4 of the base
    width; batch normalisation on stages 2 and 3; leaky ReLU. *)
Definition encoder_fwd (p : string) (theta : gmap string Tensor) (x : Tensor) : Tensor :=
  let q := p +:+ "encoder" +:+ "/" in
  let s1 := leaky_relu (conv_layer theta q "enc-conv2d-1" (df_dim cfg * 1) x) in
  let s2 := leaky_relu (bn_layer theta q "enc-bn-1" None
                          (conv_layer theta q "enc-conv2d-2" (df_dim cfg * 2) s1)) in
  leaky_relu (bn_layer theta q "enc-bn-2" None
                (conv_layer theta q "enc-conv2d-3" (df_dim cfg * 4) s2)).

(** Three strided deconvolutions, channels x2, x1, then the image
    channels; batch normalisation and leaky ReLU on the first two,
    sigmoid on the last. *)
Definition decoder_fwd (p : string) (theta : gmap string Tensor) (x : Tensor) : Tensor :=
  let q := p +:+ "decoder" +:+ "/" in
  let s1 := leaky_relu (bn_layer theta q "dec-bn-1" None
                          (deconv_layer theta q "dec-deconv2d-1" (df_dim cfg * 2) x)) in
  let s2 := leaky_relu (bn_layer theta q "dec-bn-2" None
                          (deconv_layer theta q "dec-deconv2d-2" (df_dim cfg * 1) s1)) in
  sigmoid (deconv_layer theta q "dec-deconv2d-3" (channel cfg) s2).

(** Encoder, then decoder: (embedding, reconstruction). *)
Definition discriminator_fwd (p : string) (theta : gmap string Tensor) (x : Tensor)
    : Tensor * Tensor :=
  let q := p +:+ "discriminator" +:+ "/" in
  let embedding := encoder_fwd q theta x in
  (embedding, decoder_fwd q theta embedding).

(** Dense projection, batch normalisation, leaky ReLU, reshape to a
    4x4 map, then three deconvolutions (channels x4, x2, then the
    image channels), tanh on the last. *)
Definition generator_fwd (p : string) (is_train : bool) (theta : gmap string Tensor)
    (z : Tensor) : Tensor :=
  let q := p +:+ "generator" +:+ "/" in
  let s0 := leaky_relu (bn_layer theta q "gen-bn-1" (Some is_train)
                          (dense_layer theta q "gen-fc-1" (fc_unit cfg) z)) in
  let s0 := reshape_op tf [-1; 4; 4; gf_dim cfg / 2]%Z s0 in
  let s1 := leaky_relu (bn_layer theta q "gen-bn-2" (Some is_train)
                          (deconv_layer theta q "gen-deconv2d-1" (gf_dim cfg * 4) s0)) in
  let s2 := leaky_relu (bn_layer theta q "gen-bn-3" (Some is_train)
                          (deconv_layer theta q "gen-deconv2d-2" (gf_dim cfg * 2) s1)) in
  tf_tanh (deconv_layer theta q "gen-deconv2d-3" (channel cfg) s2).

(** The variables each network owns, in creation order. *)
Definition encoder_store (p : string) : VarStore :=
  let q := p +:+ "encoder" +:+ "/" in
  layer_store q "enc-conv2d-1" Conv2d ++ layer_store q "enc-conv2d-2" Conv2d ++
  layer_store q "enc-bn-1" BatchNorm ++ layer_store q "enc-conv2d-3" Conv2d ++
  layer_store q "enc-bn-2" BatchNorm.

Definition decoder_store (p : string) : VarStore :=
  let q := p +:+ "decoder" +:+ "/" in
  layer_store q "dec-deconv2d-1" Deconv2d ++ layer_store q "dec-bn-1" BatchNorm ++
  layer_store q "dec-deconv2d-2" Deconv2d ++ layer_store q "dec-bn-2" BatchNorm ++
  layer_store q "dec-deconv2d-3" Deconv2d.

Definition discriminator_store (p : string) : VarStore :=
  let q := p +:+ "discriminator" +:+ "/" in
  encoder_store q ++ decoder_store q.

Definition generator_store (p : string) : VarStore :=
  let q := p +:+ "generator" +:+ "/" in
  layer_store q "gen-fc-1" Dense ++ layer_store q "gen-bn-1" BatchNorm ++
  layer_store q "gen-deconv2d-1" Deconv2d ++ layer_store q "gen-bn-2" BatchNorm ++
  layer_store q "gen-deconv2d-2" Deconv2d ++ layer_store q "gen-bn-3" BatchNorm ++
  layer_store q "gen-deconv2d-3" Deconv2d.

(** One Adam step on [loss], confined to [var_list]. *)
Definition train_op (lr : R) (loss : Scalar) (var_list : list string) : Op :=
  fun e =>
    apply_updates
      (adam_step tf lr beta1 beta2 (fun theta => loss (with_vars e theta)) (vars e))
      var_list (vars e).

(** The trainer, written from its description: the generated
    images, the two reconstruction errors, the hinge on the margin,
    and the three updates on the two groups of trainable variables
    [t_vars]. *)
Definition reconstruction (p : string) (theta : gmap string Tensor) (x : Tensor) : Tensor :=
  snd (discriminator_fwd p theta x).

Definition magan_model (p : string) (t_vars : list string) : MAGAN :=
  let fake : Node := fun e => generator_fwd p true (vars e) (feed_z e) in
  let real_loss : Scalar :=
    fun e => mse_loss (feed_x e) (reconstruction p (vars e) (feed_x e)) in
  let fake_loss : Scalar :=
    fun e => mse_loss (fake e) (reconstruction p (vars e) (fake e)) in
  let hinge_loss : Scalar :=
    fun e => real_loss e + Rmax 0 (feed_m e - fake_loss e) in
  let d_params := List.filter (fun v => startswith v "d") t_vars in
  let g_params := List.filter (fun v => startswith v "g") t_vars in
  {| g := fake;
     g_test := fun e => generator_fwd p false (vars e) (feed_z e);
     d_real_loss := real_loss;
     d_fake_loss := fake_loss;
     d_loss := hinge_loss;
     g_loss := fake_loss;
     d_real_op := train_op (d_lr cfg) real_loss d_params;
     d_op := train_op (d_lr cfg) hinge_loss d_params;
     g_op := train_op (g_lr cfg) fake_loss g_params |}.

End Forward.

(** ** A small substrate to run the construction on

    Variable names as [tf.layers] gives them; every kernel is the
    identity on the elements of its input, and the Adam step assigns
    the empty tensor.  It is used for the examples only. *)
Definition toy_layer_vars (k : LayerKind) : list (string * bool) :=
  match k with
  | Conv2d | Deconv2d | Dense => [("kernel:0", true); ("bias:0", true)]
  | BatchNorm => [("gamma:0", true); ("beta:0", true);
                  ("moving_mean:0", false); ("moving_variance:0", false)]
  end.

Definition toy : Substrate :=
  {| layer_vars := toy_layer_vars;
     conv2d_op := fun _ _ _ _ t => t;
     deconv2d_op := fun _ _ _ _ t => t;
     dense_op := fun _ _ t => t;
     batch_norm_op := fun _ _ t => t;
     reshape_op := fun _ t => t;
     adam_step := fun _ _ _ _ _ _ => [] |}.

(** The graph it builds at top level for the default configuration. *)
Definition toy_store : VarStore :=
  generator_store toy "" ++ discriminator_store toy "".

Definition toy_model : MAGAN :=
  magan_model toy default_config "" (trainable_variables toy_store).

(** A configuration that breaks the generator's invariant. *)
Definition bad_config : Config :=
  {| batch_size := 64; height := 28; width := 28; channel := 1;
     n_classes := 10; sample_num := 10 * 10; sample_size := 10;
     n_input := 784; df_dim := 64; gf_dim := 64; fc_unit := 500;
     z_dim := 128; g_lr := 2 / 10000; d_lr := 2 / 10000 |}.

(** A feed: two pixels, one latent value, margin 1/8; no variable
    initialised (the toy kernels read none). *)
Definition toy_env : Env :=
  {| feed_x := [1; 0]; feed_z := [0]; feed_m := 1 / 8; vars := ∅ |}.

(** The same feed with another margin. *)
Definition with_margin (e : Env) (m : R) : Env :=
  {| feed_x := feed_x e; feed_z := feed_z e; feed_m := m; vars := vars e |}.

(** An odd generator width that passes the assertion. *)
Definition odd_config : Config :=
  {| batch_size := 64; height := 28; width := 28; channel := 1;
     n_classes := 10; sample_num := 10 * 10; sample_size := 10;
     n_input := 784; df_dim := 64; gf_dim := 3; fc_unit := 24;
     z_dim := 128; g_lr := 2 / 10000; d_lr := 2 / 10000 |}.

(** Inside [with tf.variable_scope("model"):]. *)
Definition model_scope : Scope := variable_scope "model" None root_scope.

(** ** Predicates on names and stores *)

(** Neither string is a prefix of the other. *)
Definition disjoint_prefix (a b : string) : bool :=
  negb (String.prefix a b) && negb (String.prefix b a).

(** [st'] is [st] followed by variables whose names start with [p]. *)
Definition under (p : string) (st st' : VarStore) : Prop :=
  exists new, st' = st ++ new /\ Forall (fun v => String.prefix p (v_name v) = true) new.

(** A computation that only adds variables under the current scope. *)
Definition scoped {A} (m : Graph A) : Prop :=
  forall sc st, under (sc_prefix sc) st (snd (m sc st)).

(** Every variable of [S] exists (by name) in the store [st]. *)
Definition present (S st : VarStore) : Prop :=
  Forall (fun v => var_exists (v_name v) st = true) S.

(** No variable of [st] has a name that starts with [q]. *)
Definition prefix_fresh (q : string) (st : VarStore) : Prop :=
  Forall (fun v => String.prefix q (v_name v) = false) st.

(** A layer does not own two variables of the same name. *)
Definition well_formed (tf : Substrate) : Prop :=
  forall k, NoDup (fst <$> layer_vars tf k).

(** The asserted condition [fc_unit == 4 * 4 * gf_dim // 2] written in
    exact arithmetic, over the rationals: [4 * 4 * gf_dim] is even, so
    the floor division by 2 is exact ([assertion_spec]). *)
Definition spec_fc_unit_ok (cfg : Config) : Prop :=
  (inject_Z (fc_unit cfg) == 4 * 4 * (inject_Z (gf_dim cfg) / 2))%Q.

(** A computation that creates nothing when its scope reuses. *)
Definition reuse_stable {A} (m : Graph A) : Prop :=
  forall sc st, sc_reuse sc = true -> snd (m sc st) = st.



(** * Properties *)

(** ** Running a graph computation *)

Lemma bind_Ok {A B} (m : Graph A) (f : A -> Graph B) sc st b st' :
  bind m f sc st = (Ok b, st') ->
  exists a st1, m sc st = (Ok a, st1) /\ f a sc st1 = (Ok b, st').
Proof.
  unfold bind. destruct (m sc st) as [[a|e] st1]; intros H.
  - exists a, st1. split; [reflexivity | exact H].
  - discriminate H.
Qed.

Lemma bind_run {A B} (m : Graph A) (f : A -> Graph B) sc st a st1 :
  m sc st = (Ok a, st1) -> bind m f sc st = f a sc st1.
Proof. unfold bind. intros ->. reflexivity. Qed.

Lemma ret_Ok {A} (a b : A) sc st st' :
  ret a sc st = (Ok b, st') -> b = a /\ st' = st.
Proof. unfold ret. intros H. inversion H. split; reflexivity. Qed.

Lemma assert_Ok (b : bool) sc st u st' :
  assert_ b sc st = (Ok u, st') -> b = true /\ st' = st.
Proof. unfold assert_. destruct b; intros H; inversion H. split; reflexivity. Qed.

(** Take a successful run apart, one statement at a time. *)
Ltac graph_inv H :=
  let a := fresh "nd" in
  let st := fresh "st" in
  let H1 := fresh "Hrun" in
  first
    [ apply bind_Ok in H; destruct H as (a & st & H1 & H)
    | apply ret_Ok in H; destruct H as [-> ->] ].

(** ** Ranges of the activations *)

Lemma sigmoid1_bounds (v : R) : 0 < sigmoid1 v < 1.
Proof.
  unfold sigmoid1.
  pose proof (exp_pos (- v)) as He.
  split.
  - apply Rdiv_lt_0_compat; lra.
  - apply (Rmult_lt_reg_r (1 + exp (- v))); [lra|].
    field_simplify; lra.
Qed.

Lemma tanh1_bounds (v : R) : -1 < tanh1 v < 1.
Proof.
  unfold tanh1, tanh, sinh, cosh.
  pose proof (exp_pos v) as Hp.
  pose proof (exp_pos (- v)) as Hn.
  assert (Hc : 0 < (exp v + exp (- v)) / 2) by lra.
  split.
  - apply (Rmult_lt_reg_r ((exp v + exp (- v)) / 2)); [exact Hc|].
    field_simplify; lra.
  - apply (Rmult_lt_reg_r ((exp v + exp (- v)) / 2)); [exact Hc|].
    field_simplify; lra.
Qed.

(** ** A successful construction returns the forward function *)

Section Nodes.
Context (tf : Substrate) (cfg : Config).

Lemma get_variable_Ok name tr sc st n st' :
  get_variable name tr sc st = (Ok n, st') -> n = sc_prefix sc +:+ name.
Proof.
  unfold get_variable.
  destruct (sc_reuse sc), (var_exists _ st); intros H; inversion H; reflexivity.
Qed.

Lemma mapM_get_variable_Ok (l : list (string * bool)) sc st ws st' :
  mapM (fun v => get_variable (fst v) (snd v)) l sc st = (Ok ws, st') ->
  ws = (fun v => sc_prefix sc +:+ fst v) <$> l.
Proof.
  revert st ws st'. induction l as [|v l IH]; intros st ws st' H; simpl in H.
  - graph_inv H. reflexivity.
  - graph_inv H. graph_inv H. graph_inv H.
    apply get_variable_Ok in Hrun. apply IH in Hrun0. subst. reflexivity.
Qed.

Lemma layer_variables_Ok name k sc st ws st' :
  layer_variables tf name k sc st = (Ok ws, st') ->
  ws = layer_names tf (sc_prefix sc) name k.
Proof.
  unfold layer_variables, with_variable_scope. intros H.
  apply mapM_get_variable_Ok in H. exact H.
Qed.

Lemma layer_Ok k op x name sc st nd st' :
  layer tf k op x name sc st = (Ok nd, st') ->
  nd = fun e => op (weights (vars e) (layer_names tf (sc_prefix sc) name k)) (x e).
Proof.
  unfold layer. intros H. graph_inv H. graph_inv H.
  apply layer_variables_Ok in Hrun. subst. reflexivity.
Qed.

(** Replace every layer of a successful run by what it returns. *)
Ltac layers_inv H :=
  unfold conv2d, deconv2d, dense, batch_norm in H;
  repeat graph_inv H;
  repeat match goal with
    | Hl : layer _ _ _ _ _ _ _ = (Ok _, _) |- _ => apply layer_Ok in Hl
    end;
  subst.

Lemma encoder_Ok x reuse sc st nd st' :
  encoder tf cfg x reuse sc st = (Ok nd, st') ->
  nd = fun e => encoder_fwd tf cfg (sc_prefix sc) (vars e) (x e).
Proof.
  unfold encoder, with_variable_scope. intros H. layers_inv H. reflexivity.
Qed.

Lemma decoder_Ok x reuse sc st nd st' :
  decoder tf cfg x reuse sc st = (Ok nd, st') ->
  nd = fun e => decoder_fwd tf cfg (sc_prefix sc) (vars e) (x e).
Proof.
  unfold decoder, with_variable_scope. intros H. layers_inv H. reflexivity.
Qed.

Lemma discriminator_Ok x reuse sc st out st' :
  discriminator tf cfg x reuse sc st = (Ok out, st') ->
  out = (fun e => fst (discriminator_fwd tf cfg (sc_prefix sc) (vars e) (x e)),
         fun e => snd (discriminator_fwd tf cfg (sc_prefix sc) (vars e) (x e))).
Proof.
  unfold discriminator, with_variable_scope. intros H. repeat graph_inv H.
  apply encoder_Ok in Hrun. apply decoder_Ok in Hrun0. subst. reflexivity.
Qed.

Lemma generator_Ok z reuse is_train sc st nd st' :
  generator tf cfg z reuse is_train sc st = (Ok nd, st') ->
  nd = fun e => generator_fwd tf cfg (sc_prefix sc) is_train (vars e) (z e).
Proof.
  unfold generator, with_variable_scope. intros H. layers_inv H. reflexivity.
Qed.

Lemma minimize_Ok lr b1 b2 loss var_list sc st op st' :
  minimize tf lr b1 b2 loss var_list sc st = (Ok op, st') ->
  op = (fun e =>
          apply_updates
            (adam_step tf lr b1 b2 (fun theta => loss (with_vars e theta)) (vars e))
            var_list (vars e))
  /\ var_list <> [] /\ st' = st.
Proof.
  unfold minimize. destruct var_list as [|v l]; intros H.
  - discriminate H.
  - apply ret_Ok in H as [-> ->]. repeat split. discriminate.
Qed.

(** The object a successful [build_magan] returns. *)
Lemma build_magan_Ok sc st M st' :
  build_magan tf cfg sc st = (Ok M, st') ->
  M = magan_model tf cfg (sc_prefix sc) (trainable_variables st').
Proof.
  unfold build_magan. intros H.
  do 5 graph_inv H.
  apply generator_Ok in Hrun, Hrun0.
  apply discriminator_Ok in Hrun1, Hrun2.
  unfold get_trainable_variables in Hrun3. inversion Hrun3; subst; clear Hrun3.
  do 3 graph_inv H.
  apply minimize_Ok in Hrun as (-> & _ & ->).
  apply minimize_Ok in Hrun0 as (-> & _ & ->).
  apply minimize_Ok in Hrun1 as (-> & _ & ->).
  graph_inv H. reflexivity.
Qed.

End Nodes.

(** ** Names: prefixes of strings *)

Lemma prefix_nil (s : string) : String.prefix "" s = true.
Proof. destruct s; reflexivity. Qed.

Lemma prefix_cons a p b s :
  String.prefix (String a p) (String b s) = true <-> a = b /\ String.prefix p s = true.
Proof.
  simpl. destruct (Ascii.ascii_dec a b) as [->|Hne].
  - split; [intros H; split; [reflexivity | exact H] | intros [_ H]; exact H].
  - split; [discriminate | intros [Heq _]; contradiction].
Qed.

Lemma prefix_app (p s : string) : String.prefix p (p +:+ s) = true.
Proof.
  induction p as [|a p IH]; [apply prefix_nil|].
  change (String a p +:+ s) with (String a (p +:+ s)).
  apply prefix_cons. split; [reflexivity | exact IH].
Qed.

Lemma prefix_trans (p q s : string) :
  String.prefix p q = true -> String.prefix q s = true -> String.prefix p s = true.
Proof.
  revert q s. induction p as [|a p IH]; intros q s Hpq Hqs; [apply prefix_nil|].
  destruct q as [|b q]; [discriminate Hpq|].
  destruct s as [|c s]; [discriminate Hqs|].
  apply prefix_cons in Hpq as [-> Hpq]. apply prefix_cons in Hqs as [-> Hqs].
  apply prefix_cons. split; [reflexivity | exact (IH _ _ Hpq Hqs)].
Qed.

Lemma prefix_app_cancel (q a s : string) :
  String.prefix (q +:+ a) (q +:+ s) = String.prefix a s.
Proof.
  induction q as [|c q IH]; [reflexivity|].
  change (String.prefix (String c (q +:+ a)) (String c (q +:+ s)) = String.prefix a s).
  simpl. destruct (Ascii.ascii_dec c c) as [_|Hne]; [exact IH | contradiction].
Qed.

(** Two prefixes of one string are comparable. *)
Lemma prefix_comparable (a b s : string) :
  String.prefix a s = true -> String.prefix b s = true ->
  String.prefix a b = true \/ String.prefix b a = true.
Proof.
  revert b s. induction a as [|x a IH]; intros b s Ha Hb.
  - left. apply prefix_nil.
  - destruct b as [|y b]; [right; reflexivity|].
    destruct s as [|c s]; [discriminate Ha|].
    apply prefix_cons in Ha as [-> Ha]. apply prefix_cons in Hb as [-> Hb].
    destruct (IH _ _ Ha Hb) as [H|H]; [left | right];
      apply prefix_cons; (split; [reflexivity | exact H]).
Qed.

Lemma disjoint_prefix_false (q a b s : string) :
  disjoint_prefix a b = true ->
  String.prefix (q +:+ a) s = true -> String.prefix (q +:+ b) s = false.
Proof.
  unfold disjoint_prefix. intros Hd Ha.
  destruct (String.prefix (q +:+ b) s) eqn:Hb; [exfalso | reflexivity].
  destruct (prefix_comparable _ _ _ Ha Hb) as [H|H];
    rewrite prefix_app_cancel in H; rewrite H in Hd;
    [discriminate Hd | rewrite andb_false_r in Hd; discriminate Hd].
Qed.

Lemma startswith_d_not_g (n : string) :
  startswith n "d" = true -> startswith n "g" = false.
Proof. unfold startswith. apply (disjoint_prefix_false "" "d" "g"). reflexivity. Qed.

Lemma startswith_g_not_d (n : string) :
  startswith n "g" = true -> startswith n "d" = false.
Proof. unfold startswith. apply (disjoint_prefix_false "" "g" "d"). reflexivity. Qed.

(** ** Construction only adds variables, and only under the current scope *)

Lemma under_refl p st : under p st st.
Proof. exists []. split; [symmetry; apply app_nil_r | constructor]. Qed.

Lemma under_trans p st1 st2 st3 :
  under p st1 st2 -> under p st2 st3 -> under p st1 st3.
Proof.
  intros (n1 & -> & H1) (n2 & -> & H2). exists (n1 ++ n2).
  split; [symmetry; apply app_assoc | apply Forall_app; split; assumption].
Qed.

Lemma under_weaken p q st st' :
  String.prefix p q = true -> under q st st' -> under p st st'.
Proof.
  intros Hpq (new & -> & H). exists new. split; [reflexivity|].
  eapply Forall_impl; [exact H|]. intros v Hv. exact (prefix_trans _ _ _ Hpq Hv).
Qed.

Lemma scoped_ret {A} (a : A) : scoped (ret a).
Proof. intros sc st. apply under_refl. Qed.

Lemma scoped_raise {A} e : scoped (@raise A e).
Proof. intros sc st. apply under_refl. Qed.

Lemma scoped_assert b : scoped (assert_ b).
Proof. intros sc st. unfold assert_. destruct b; apply under_refl. Qed.

Lemma scoped_bind {A B} (m : Graph A) (f : A -> Graph B) :
  scoped m -> (forall a, scoped (f a)) -> scoped (bind m f).
Proof.
  intros Hm Hf sc st. unfold bind. specialize (Hm sc st).
  destruct (m sc st) as [[a|e] st1]; simpl in Hm.
  - eapply under_trans; [exact Hm | apply Hf].
  - exact Hm.
Qed.

Lemma scoped_get_variable name tr : scoped (get_variable name tr).
Proof.
  intros sc st. unfold get_variable.
  destruct (sc_reuse sc), (var_exists _ st); simpl; try apply under_refl.
  exists [mkVar (sc_prefix sc +:+ name) tr]. split; [reflexivity|].
  constructor; [apply prefix_app | constructor].
Qed.

Lemma scoped_mapM {A B} (f : A -> Graph B) (l : list A) :
  (forall a, scoped (f a)) -> scoped (mapM f l).
Proof.
  intros Hf. induction l as [|a l IH]; simpl.
  - apply scoped_ret.
  - apply scoped_bind; [apply Hf|]. intros b.
    apply scoped_bind; [exact IH|]. intros bs. apply scoped_ret.
Qed.

(** What a [with] block adds lies under the scope it opens. *)
Lemma opened_under {A} name reuse (body : Graph A) :
  scoped body ->
  forall sc st, under (sc_prefix sc +:+ name +:+ "/") st
                  (snd (with_variable_scope name reuse body sc st)).
Proof. intros Hb sc st. exact (Hb (variable_scope name reuse sc) st). Qed.

Lemma scoped_with_variable_scope {A} name reuse (body : Graph A) :
  scoped body -> scoped (with_variable_scope name reuse body).
Proof.
  intros Hb sc st. eapply under_weaken; [|apply opened_under; exact Hb].
  apply prefix_app.
Qed.

Lemma scoped_get_trainable_variables : scoped get_trainable_variables.
Proof. intros sc st. apply under_refl. Qed.

Create HintDb graph.
#[export] Hint Resolve scoped_ret scoped_raise scoped_assert scoped_get_variable
  scoped_get_trainable_variables : graph.

Ltac scoped_tac :=
  repeat first
    [ progress intros
    | apply scoped_with_variable_scope
    | apply scoped_bind
    | apply scoped_mapM
    | solve [auto with graph] ].

Section Scoped.
Context (tf : Substrate) (cfg : Config).

Lemma scoped_layer_variables name k : scoped (layer_variables tf name k).
Proof. unfold layer_variables. scoped_tac. Qed.

Lemma scoped_layer k op x name : scoped (layer tf k op x name).
Proof. unfold layer. scoped_tac. Qed.

Lemma scoped_conv2d x f k s name : scoped (conv2d tf x f k s name).
Proof. apply scoped_layer. Qed.

Lemma scoped_deconv2d x f k s name : scoped (deconv2d tf x f k s name).
Proof. apply scoped_layer. Qed.

Lemma scoped_dense x units name : scoped (dense tf x units name).
Proof. apply scoped_layer. Qed.

Lemma scoped_batch_norm x is_train name : scoped (batch_norm tf x is_train name).
Proof. apply scoped_layer. Qed.

Lemma scoped_minimize lr b1 b2 loss var_list :
  scoped (minimize tf lr b1 b2 loss var_list).
Proof. unfold minimize. destruct var_list; auto with graph. Qed.

End Scoped.

#[export] Hint Resolve scoped_layer_variables scoped_layer scoped_conv2d
  scoped_deconv2d scoped_dense scoped_batch_norm scoped_minimize : graph.

Section ScopedNetworks.
Context (tf : Substrate) (cfg : Config).

Lemma scoped_encoder x reuse : scoped (encoder tf cfg x reuse).
Proof. unfold encoder. scoped_tac. Qed.

Lemma scoped_decoder x reuse : scoped (decoder tf cfg x reuse).
Proof. unfold decoder. scoped_tac. Qed.

Lemma discriminator_under x reuse sc st :
  under (sc_prefix sc +:+ "discriminator" +:+ "/") st
    (snd (discriminator tf cfg x reuse sc st)).
Proof.
  unfold discriminator. apply opened_under. scoped_tac.
Qed.

Lemma generator_under z reuse is_train sc st :
  under (sc_prefix sc +:+ "generator" +:+ "/") st
    (snd (generator tf cfg z reuse is_train sc st)).
Proof. unfold generator. apply opened_under. scoped_tac. Qed.

End ScopedNetworks.

(** ** Mean-squared error *)

Lemma reduce_sum_squared_difference_nonneg (x y : Tensor) :
  0 <= reduce_sum (squared_difference x y).
Proof.
  unfold reduce_sum, squared_difference.
  revert y. induction x as [|a x IH]; intros [|b y]; simpl; try lra.
  specialize (IH y). pose proof (Rle_0_sqr (a - b)) as Hsq. unfold Rsqr in Hsq. lra.
Qed.

Lemma mse_loss_nonneg (x y : Tensor) : 0 <= mse_loss x y.
Proof.
  unfold mse_loss, reduce_mean.
  pose proof (reduce_sum_squared_difference_nonneg x y) as Hs.
  destruct (squared_difference x y) as [|a t] eqn:Ht.
  - unfold reduce_sum. simpl. lra.
  - apply Rmult_le_pos; [exact Hs|].
    left. apply Rinv_0_lt_compat. apply lt_0_INR. simpl. lia.
Qed.

(** ** The losses *)

(** C1: for every feed of real images [x], noise and margin [m], with
    [gv] the generator's output, the built graph computes
    [d_real_loss] as the mean-squared error between [x] and the
    discriminator's reconstruction of [x], [d_fake_loss] as the
    mean-squared error between [gv] and the discriminator's
    reconstruction of [gv], and [d_loss] as
    [d_real_loss + max(0, m - d_fake_loss)]. *)
Theorem losses_computed tf cfg sc st M st' :
  build_magan tf cfg sc st = (Ok M, st') ->
  forall e : Env,
    let x := feed_x e in
    let m := feed_m e in
    let gv := g M e in
    let D := reconstruction tf cfg (sc_prefix sc) (vars e) in
    gv = generator_fwd tf cfg (sc_prefix sc) true (vars e) (feed_z e) /\
    d_real_loss M e = mse_loss x (D x) /\
    d_fake_loss M e = mse_loss gv (D gv) /\
    d_loss M e = d_real_loss M e + Rmax 0 (m - d_fake_loss M e).
Proof.
  intros H e. apply build_magan_Ok in H. subst M. simpl.
  repeat split; reflexivity.
Qed.

Lemma losses_computed_witness :
  build_magan toy default_config root_scope [] = (Ok toy_model, toy_store) /\
  forall e : Env,
    g toy_model e = generator_fwd toy default_config "" true (vars e) (feed_z e) /\
    d_real_loss toy_model e =
      mse_loss (feed_x e) (reconstruction toy default_config "" (vars e) (feed_x e)) /\
    d_fake_loss toy_model e =
      mse_loss (g toy_model e)
        (reconstruction toy default_config "" (vars e) (g toy_model e)) /\
    d_loss toy_model e =
      d_real_loss toy_model e + Rmax 0 (feed_m e - d_fake_loss toy_model e).
Proof.
  split; [reflexivity|].
  apply (losses_computed toy default_config root_scope [] toy_model toy_store).
  reflexivity.
Defined.

(** C7: for every feed, the generator loss [g_loss] is exactly
    [d_fake_loss], the mean-squared reconstruction error of the
    generated images. *)
Theorem g_loss_is_d_fake_loss tf cfg sc st M st' :
  build_magan tf cfg sc st = (Ok M, st') ->
  forall e : Env,
    g_loss M e = d_fake_loss M e /\
    g_loss M e = mse_loss (g M e) (reconstruction tf cfg (sc_prefix sc) (vars e) (g M e)).
Proof.
  intros H e. apply build_magan_Ok in H. subst M. split; reflexivity.
Qed.

Lemma g_loss_is_d_fake_loss_witness :
  build_magan toy default_config root_scope [] = (Ok toy_model, toy_store) /\
  g_loss toy_model toy_env = d_fake_loss toy_model toy_env /\
  g_loss toy_model toy_env =
    mse_loss (g toy_model toy_env)
      (reconstruction toy default_config "" (vars toy_env) (g toy_model toy_env)).
Proof.
  split; [reflexivity|].
  apply (g_loss_is_d_fake_loss toy default_config root_scope [] toy_model toy_store).
  reflexivity.
Defined.

(** C8: for every feed, [d_loss >= d_real_loss]: the hinge term
    [max(0, m - d_fake_loss)] is not negative. *)
Theorem d_loss_ge_d_real_loss tf cfg sc st M st' :
  build_magan tf cfg sc st = (Ok M, st') ->
  forall e : Env, d_loss M e >= d_real_loss M e.
Proof.
  intros H e. apply build_magan_Ok in H. subst M. simpl.
  pose proof (Rmax_l 0 (feed_m e -
    mse_loss (generator_fwd tf cfg (sc_prefix sc) true (vars e) (feed_z e))
      (reconstruction tf cfg (sc_prefix sc) (vars e)
         (generator_fwd tf cfg (sc_prefix sc) true (vars e) (feed_z e))))) as Hh.
  lra.
Qed.

Lemma d_loss_ge_d_real_loss_witness :
  build_magan toy default_config root_scope [] = (Ok toy_model, toy_store) /\
  d_loss toy_model toy_env >= d_real_loss toy_model toy_env.
Proof.
  split; [reflexivity|].
  apply (d_loss_ge_d_real_loss toy default_config root_scope [] toy_model toy_store).
  reflexivity.
Defined.

(** C9: for a margin [m] and a feed with [d_fake_loss > m], [d_loss]
    is exactly [d_real_loss] (the hinge term is zero). *)
Theorem d_loss_beyond_margin tf cfg sc st M st' :
  build_magan tf cfg sc st = (Ok M, st') ->
  forall e : Env, d_fake_loss M e > feed_m e -> d_loss M e = d_real_loss M e.
Proof.
  intros H e. apply build_magan_Ok in H. subst M. simpl. intros Hm.
  rewrite Rmax_left; lra.
Qed.

(** On the toy graph a zero latent value is generated as [tanh 0 = 0]
    and reconstructed as [sigmoid 0 = 1/2]. *)
Lemma leaky_relu1_0 : leaky_relu1 0 = 0.
Proof. unfold leaky_relu1. rewrite Rmult_0_r. apply Rmax_left. lra. Qed.

Lemma sigmoid1_0 : sigmoid1 0 = 1 / 2.
Proof. unfold sigmoid1. rewrite Ropp_0, exp_0. lra. Qed.

Lemma tanh1_0 : tanh1 0 = 0.
Proof. unfold tanh1, tanh. rewrite sinh_0. lra. Qed.

Example toy_d_fake_loss : d_fake_loss toy_model toy_env = 1 / 4.
Proof.
  cbv [d_fake_loss toy_model magan_model toy_env feed_z feed_x vars
       generator_fwd reconstruction discriminator_fwd encoder_fwd decoder_fwd
       conv_layer deconv_layer bn_layer dense_layer toy
       conv2d_op deconv2d_op dense_op batch_norm_op reshape_op snd
       tf_tanh leaky_relu sigmoid map].
  rewrite !leaky_relu1_0, tanh1_0, !leaky_relu1_0, sigmoid1_0.
  unfold mse_loss, reduce_mean, squared_difference, reduce_sum. simpl. lra.
Qed.

Lemma d_loss_beyond_margin_witness :
  build_magan toy default_config root_scope [] = (Ok toy_model, toy_store) /\
  d_fake_loss toy_model toy_env > feed_m toy_env /\
  d_loss toy_model toy_env = d_real_loss toy_model toy_env.
Proof.
  assert (Hm : d_fake_loss toy_model toy_env > feed_m toy_env).
  { rewrite toy_d_fake_loss. simpl. lra. }
  split; [reflexivity|]. split; [exact Hm|].
  apply (d_loss_beyond_margin toy default_config root_scope [] toy_model toy_store);
    [reflexivity | exact Hm].
Defined.

Example toy_store_first :
  v_name <$> head toy_store = Some "generator/gen-fc-1/kernel:0".
Proof. reflexivity. Qed.

Example toy_parameter_counts :
  length toy_store = 48%nat /\
  length (List.filter (fun v => startswith v "d") (trainable_variables toy_store)) = 20%nat /\
  length (List.filter (fun v => startswith v "g") (trainable_variables toy_store)) = 14%nat.
Proof. repeat split; reflexivity. Qed.

(** C10: for every feed, the four losses are not negative. *)
Theorem losses_nonneg tf cfg sc st M st' :
  build_magan tf cfg sc st = (Ok M, st') ->
  forall e : Env,
    0 <= d_real_loss M e /\ 0 <= d_fake_loss M e /\
    0 <= g_loss M e /\ 0 <= d_loss M e.
Proof.
  intros H e. apply build_magan_Ok in H. subst M. simpl.
  set (gv := generator_fwd tf cfg (sc_prefix sc) true (vars e) (feed_z e)).
  pose proof (mse_loss_nonneg (feed_x e)
                (reconstruction tf cfg (sc_prefix sc) (vars e) (feed_x e))) as Hr.
  pose proof (mse_loss_nonneg gv (reconstruction tf cfg (sc_prefix sc) (vars e) gv)) as Hf.
  pose proof (Rmax_l 0 (feed_m e -
                mse_loss gv (reconstruction tf cfg (sc_prefix sc) (vars e) gv))) as Hh.
  repeat split; lra.
Qed.

Lemma losses_nonneg_witness :
  build_magan toy default_config root_scope [] = (Ok toy_model, toy_store) /\
  0 <= d_real_loss toy_model toy_env /\ 0 <= d_fake_loss toy_model toy_env /\
  0 <= g_loss toy_model toy_env /\ 0 <= d_loss toy_model toy_env.
Proof.
  split; [reflexivity|].
  apply (losses_nonneg toy default_config root_scope [] toy_model toy_store).
  reflexivity.
Defined.

(** ** Ranges of the outputs *)

Lemma Forall_map_bounds (f : R -> R) (lo hi : R) (t : Tensor) :
  (forall v, lo < f v < hi) -> Forall (fun v => lo <= v <= hi) (map f t).
Proof.
  intros Hf. induction t as [|a t IH]; simpl; constructor.
  - specialize (Hf a). lra.
  - exact IH.
Qed.

(** C5: for every latent input, every element of the generator's
    output lies in [[-1, 1]]: the last stage is a hyperbolic tangent. *)
Theorem generator_output_range tf cfg z reuse is_train sc st nd st' :
  generator tf cfg z reuse is_train sc st = (Ok nd, st') ->
  forall e : Env, Forall (fun v => -1 <= v <= 1) (nd e).
Proof.
  intros H e. apply generator_Ok in H. subst nd.
  unfold generator_fwd, tf_tanh. apply Forall_map_bounds. exact tanh1_bounds.
Qed.

Lemma generator_output_range_witness :
  generator toy default_config placeholder_z None true root_scope [] =
    (Ok (g toy_model), generator_store toy "") /\
  Forall (fun v => -1 <= v <= 1) (g toy_model toy_env).
Proof.
  split; [reflexivity|].
  apply (generator_output_range toy default_config placeholder_z None true
           root_scope [] (g toy_model) (generator_store toy "")).
  reflexivity.
Defined.

(** C6: for every embedding input, every element of the decoder's
    output lies in [[0, 1]]: the last stage is a sigmoid. *)
Theorem decoder_output_range tf cfg x reuse sc st nd st' :
  decoder tf cfg x reuse sc st = (Ok nd, st') ->
  forall e : Env, Forall (fun v => 0 <= v <= 1) (nd e).
Proof.
  intros H e. apply decoder_Ok in H. subst nd.
  unfold decoder_fwd, sigmoid. apply Forall_map_bounds. exact sigmoid1_bounds.
Qed.

Lemma decoder_output_range_witness :
  decoder toy default_config placeholder_x None root_scope [] =
    (Ok (fun e => decoder_fwd toy default_config "" (vars e) (feed_x e)),
     decoder_store toy "") /\
  Forall (fun v => 0 <= v <= 1) (decoder_fwd toy default_config "" (vars toy_env) [1; 0]).
Proof.
  split; [reflexivity|].
  apply (decoder_output_range toy default_config placeholder_x None root_scope []
           (fun e => decoder_fwd toy default_config "" (vars e) (feed_x e))
           (decoder_store toy "") eq_refl toy_env).
Defined.

(** ** The two groups of parameters *)

Lemma apply_updates_frame (step : string -> Tensor) (var_list : list string)
    (theta : gmap string Tensor) (n : string) :
  n ∉ var_list -> apply_updates step var_list theta !! n = theta !! n.
Proof.
  unfold apply_updates. induction var_list as [|v l IH]; intros Hn; simpl.
  - reflexivity.
  - apply not_elem_of_cons in Hn as [Hne Hn].
    rewrite lookup_insert_ne; [apply IH; exact Hn | congruence].
Qed.

Lemma elem_of_filter_startswith (p n : string) (l : list string) :
  n ∈ List.filter (fun v => startswith v p) l <-> n ∈ l /\ startswith n p = true.
Proof.
  rewrite !list_elem_of_In.
  exact (filter_In (fun v => startswith v p) n l).
Qed.

Lemma trainable_variables_Forall (P : string -> Prop) (st : VarStore) :
  Forall (fun v => P (v_name v)) st -> Forall P (trainable_variables st).
Proof.
  unfold trainable_variables. induction st as [|v st IH]; intros H; simpl.
  - constructor.
  - inversion H; subst. destruct (v_trainable v); simpl; auto.
Qed.

Section Partition.
Context (tf : Substrate) (cfg : Config).

(** Every variable [build_magan] creates lies under the generator's
    or under the discriminator's scope. *)
Lemma build_magan_store sc st M st' :
  build_magan tf cfg sc st = (Ok M, st') ->
  exists new,
    st' = st ++ new /\
    Forall (fun v =>
              String.prefix (sc_prefix sc +:+ "generator" +:+ "/") (v_name v) = true \/
              String.prefix (sc_prefix sc +:+ "discriminator" +:+ "/") (v_name v) = true)
           new.
Proof.
  unfold build_magan. intros H. do 5 graph_inv H.
  pose proof (generator_under tf cfg placeholder_z None true sc st) as (n1 & E1 & H1).
  rewrite Hrun in E1. simpl in E1.
  pose proof (generator_under tf cfg placeholder_z (Some true) false sc st0) as (n2 & E2 & H2).
  rewrite Hrun0 in E2. simpl in E2.
  pose proof (discriminator_under tf cfg placeholder_x None sc st1) as (n3 & E3 & H3).
  rewrite Hrun1 in E3. simpl in E3.
  pose proof (discriminator_under tf cfg nd (Some true) sc st2) as (n4 & E4 & H4).
  rewrite Hrun2 in E4. simpl in E4.
  subst st0 st1 st2 st3.
  unfold get_trainable_variables in Hrun3. inversion Hrun3; subst; clear Hrun3.
  do 3 graph_inv H.
  apply minimize_Ok in Hrun3 as (_ & _ & ->).
  apply minimize_Ok in Hrun4 as (_ & _ & ->).
  apply minimize_Ok in Hrun5 as (_ & _ & ->).
  graph_inv H.
  exists (n1 ++ n2 ++ n3 ++ n4). split.
  - rewrite <- !app_assoc. reflexivity.
  - repeat (apply Forall_app; split);
      (eapply Forall_impl; [eassumption|]); intros v Hv; simpl; auto.
Qed.

(** At top level, on an empty graph, every trainable variable starts
    with "g" or with "d". *)
Lemma build_magan_names M st :
  build_magan tf cfg root_scope [] = (Ok M, st) ->
  Forall (fun n => startswith n "g" = true \/ startswith n "d" = true)
         (trainable_variables st).
Proof.
  intros H. apply build_magan_store in H as (new & -> & Hnew).
  apply trainable_variables_Forall. simpl.
  eapply Forall_impl; [exact Hnew|]. intros v [Hv|Hv]; [left | right];
    unfold startswith; refine (prefix_trans _ _ _ _ Hv); reflexivity.
Qed.

End Partition.

(** C2: the trainable variables fall into two disjoint groups by the
    first letter of their names, "d" (discriminator) and "g"
    (generator), and each training operation assigns only to its own
    group: [d_real_op] and [d_op] leave every variable outside
    [d_params] as it was, [g_op] every variable outside [g_params]; in
    particular a discriminator update leaves every variable whose name
    starts with "g" unchanged, and a generator update every variable
    whose name starts with "d". *)
Theorem parameter_partition tf cfg M st :
  build_magan tf cfg root_scope [] = (Ok M, st) ->
  let t_vars := trainable_variables st in
  let d_params := List.filter (fun v => startswith v "d") t_vars in
  let g_params := List.filter (fun v => startswith v "g") t_vars in
  (forall v, v ∈ t_vars ->
     (v ∈ d_params /\ v ∉ g_params) \/ (v ∈ g_params /\ v ∉ d_params)) /\
  (forall e n, n ∉ d_params ->
     d_real_op M e !! n = vars e !! n /\ d_op M e !! n = vars e !! n) /\
  (forall e n, n ∉ g_params -> g_op M e !! n = vars e !! n) /\
  (forall e n, startswith n "g" = true ->
     d_real_op M e !! n = vars e !! n /\ d_op M e !! n = vars e !! n) /\
  (forall e n, startswith n "d" = true -> g_op M e !! n = vars e !! n).
Proof.
  intros H t_vars d_params g_params.
  pose proof (build_magan_names tf cfg M st H) as Hnames.
  apply build_magan_Ok in H. subst M. fold t_vars. fold d_params g_params.
  assert (Hd : forall e n, n ∉ d_params ->
            d_real_op (magan_model tf cfg (sc_prefix root_scope) t_vars) e !! n = vars e !! n /\
            d_op (magan_model tf cfg (sc_prefix root_scope) t_vars) e !! n = vars e !! n).
  { intros e n Hn. split; apply apply_updates_frame; exact Hn. }
  assert (Hg : forall e n, n ∉ g_params ->
            g_op (magan_model tf cfg (sc_prefix root_scope) t_vars) e !! n = vars e !! n).
  { intros e n Hn. apply apply_updates_frame; exact Hn. }
  split; [|split; [exact Hd | split; [exact Hg | split]]].
  - intros v Hv. rewrite Forall_forall in Hnames.
    unfold d_params, g_params. rewrite !elem_of_filter_startswith.
    destruct (Hnames v Hv) as [Hs|Hs]; [right | left];
      (split; [split; [exact Hv | exact Hs]|]); intros [_ Hs'].
    + apply startswith_g_not_d in Hs. congruence.
    + apply startswith_d_not_g in Hs. congruence.
  - intros e n Hs. apply Hd. unfold d_params.
    rewrite elem_of_filter_startswith. intros [_ Hs'].
    apply startswith_g_not_d in Hs. congruence.
  - intros e n Hs. apply Hg. unfold g_params.
    rewrite elem_of_filter_startswith. intros [_ Hs'].
    apply startswith_d_not_g in Hs. congruence.
Qed.

Lemma parameter_partition_witness :
  build_magan toy default_config root_scope [] = (Ok toy_model, toy_store) /\
  (forall e n, startswith n "g" = true ->
     d_real_op toy_model e !! n = vars e !! n /\ d_op toy_model e !! n = vars e !! n) /\
  (forall e n, startswith n "d" = true -> g_op toy_model e !! n = vars e !! n).
Proof.
  assert (Hb : build_magan toy default_config root_scope [] = (Ok toy_model, toy_store))
    by reflexivity.
  split; [exact Hb|].
  destruct (parameter_partition toy default_config toy_model toy_store Hb)
    as (_ & _ & _ & Hg & Hd).
  split; assumption.
Defined.

(** ** Variables that exist are found again *)

Lemma var_exists_app n st new :
  var_exists n (st ++ new) = var_exists n st || var_exists n new.
Proof. unfold var_exists. apply existsb_app. Qed.

Lemma var_exists_elem v st : v ∈ st -> var_exists (v_name v) st = true.
Proof.
  intros Hv. unfold var_exists. apply existsb_exists. exists v. split.
  - apply list_elem_of_In. exact Hv.
  - apply String.eqb_refl.
Qed.

Lemma var_exists_inv n st :
  var_exists n st = true -> exists v, v ∈ st /\ v_name v = n.
Proof.
  unfold var_exists. intros H. apply existsb_exists in H as (v & Hv & He).
  exists v. split; [apply list_elem_of_In; exact Hv | apply String.eqb_eq; exact He].
Qed.

Lemma present_app S1 S2 st : present (S1 ++ S2) st <-> present S1 st /\ present S2 st.
Proof. unfold present. apply Forall_app. Qed.

Lemma present_mono S st new : present S st -> present S (st ++ new).
Proof.
  unfold present. intros H. eapply Forall_impl; [exact H|].
  intros v Hv. simpl. rewrite var_exists_app, Hv. reflexivity.
Qed.

Lemma present_self S st : present S (st ++ S).
Proof.
  unfold present. apply Forall_forall. intros v Hv.
  rewrite var_exists_app, (var_exists_elem v S Hv). apply orb_true_r.
Qed.

Lemma scoped_run {A} (m : Graph A) sc st r st' :
  scoped m -> m sc st = (r, st') -> exists new, st' = st ++ new.
Proof.
  intros Hm H. destruct (Hm sc st) as (new & E & _). rewrite H in E.
  exists new. exact E.
Qed.

Lemma get_variable_present name tr sc st n st' :
  get_variable name tr sc st = (Ok n, st') ->
  var_exists (sc_prefix sc +:+ name) st' = true.
Proof.
  unfold get_variable.
  destruct (sc_reuse sc), (var_exists (sc_prefix sc +:+ name) st) eqn:He;
    intros H; inversion H; subst; clear H.
  - exact He.
  - rewrite var_exists_app. unfold var_exists at 2. simpl.
    rewrite String.eqb_refl. apply orb_true_r.
Qed.

Lemma mapM_get_variable_present (l : list (string * bool)) sc st ws st' :
  mapM (fun v => get_variable (fst v) (snd v)) l sc st = (Ok ws, st') ->
  Forall (fun v => var_exists (sc_prefix sc +:+ fst v) st' = true) l.
Proof.
  revert st ws st'. induction l as [|v l IH]; intros st ws st' H; simpl in H.
  - constructor.
  - do 3 graph_inv H. constructor.
    + apply get_variable_present in Hrun.
      destruct (scoped_run _ _ _ _ _
                  (scoped_mapM _ l (fun a => scoped_get_variable (fst a) (snd a))) Hrun0)
        as (new & ->).
      rewrite var_exists_app, Hrun. reflexivity.
    + exact (IH _ _ _ Hrun0).
Qed.

(** In a reusing scope nothing is created. *)
Lemma mapM_get_variable_reuse (l : list (string * bool)) sc st :
  sc_reuse sc = true ->
  Forall (fun v => var_exists (sc_prefix sc +:+ fst v) st = true) l ->
  mapM (fun v => get_variable (fst v) (snd v)) l sc st =
    (Ok ((fun v => sc_prefix sc +:+ fst v) <$> l), st).
Proof.
  intros Hr. induction l as [|v l IH]; intros Hl; simpl.
  - reflexivity.
  - inversion Hl as [|? ? Hv Hl']; subst.
    assert (Hg : get_variable (fst v) (snd v) sc st = (Ok (sc_prefix sc +:+ fst v), st)).
    { unfold get_variable. rewrite Hr, Hv. reflexivity. }
    rewrite (bind_run _ _ _ _ _ _ Hg).
    rewrite (bind_run _ _ _ _ _ _ (IH Hl')). reflexivity.
Qed.

Section Reuse.
Context (tf : Substrate) (cfg : Config).

Lemma layer_present k op x name sc st nd st' :
  layer tf k op x name sc st = (Ok nd, st') ->
  present (layer_store tf (sc_prefix sc) name k) st'.
Proof.
  unfold layer. intros H. do 2 graph_inv H.
  unfold layer_variables, with_variable_scope in Hrun.
  apply mapM_get_variable_present in Hrun.
  unfold present, layer_store. apply Forall_fmap.
  eapply Forall_impl; [exact Hrun|]. intros v Hv. exact Hv.
Qed.

Lemma layer_reuse k op x name sc st :
  sc_reuse sc = true ->
  present (layer_store tf (sc_prefix sc) name k) st ->
  layer tf k op x name sc st =
    (Ok (fun e => op (weights (vars e) (layer_names tf (sc_prefix sc) name k)) (x e)), st).
Proof.
  intros Hr Hp. unfold layer.
  assert (Hl : layer_variables tf name k sc st =
                 (Ok (layer_names tf (sc_prefix sc) name k), st)).
  { unfold layer_variables, with_variable_scope.
    apply mapM_get_variable_reuse; [exact Hr|].
    unfold present, layer_store in Hp. apply Forall_fmap in Hp.
    eapply Forall_impl; [exact Hp|]. intros v Hv. exact Hv. }
  rewrite (bind_run _ _ _ _ _ _ Hl). reflexivity.
Qed.

End Reuse.

(** Run the next layer of a reusing scope. *)
Ltac run_reuse :=
  erewrite bind_run by (apply layer_reuse; [reflexivity || assumption | assumption]);
  cbv beta.

(** From each layer of a successful run: its variables exist
    afterwards, and the store has only grown. *)
Ltac layer_facts :=
  repeat match goal with
    | Hl : layer ?tf ?k ?op ?x ?name ?sc ?st = (Ok _, ?st') |- _ =>
        let Hp := fresh "Hp" in
        let new := fresh "new" in
        let E := fresh "E" in
        pose proof (layer_present tf k op x name sc st _ st' Hl) as Hp;
        destruct (scoped_run _ _ _ _ _ (scoped_layer tf k op x name) Hl) as (new & E);
        clear Hl
    end.

Ltac present_tac :=
  repeat match goal with
    | |- present (_ ++ _) _ => apply present_app; split
    end;
  repeat first [ assumption | apply present_mono ].

Section ReuseNetworks.
Context (tf : Substrate) (cfg : Config).

Lemma encoder_present x reuse sc st nd st' :
  encoder tf cfg x reuse sc st = (Ok nd, st') ->
  present (encoder_store tf (sc_prefix sc)) st'.
Proof.
  unfold encoder, with_variable_scope, conv2d, batch_norm. intros H.
  repeat graph_inv H. layer_facts. subst.
  unfold encoder_store. simpl in *. present_tac.
Qed.

Lemma encoder_reuse x reuse sc st :
  sc_reuse (variable_scope "encoder" reuse sc) = true ->
  present (encoder_store tf (sc_prefix sc)) st ->
  encoder tf cfg x reuse sc st =
    (Ok (fun e => encoder_fwd tf cfg (sc_prefix sc) (vars e) (x e)), st).
Proof.
  intros Hr Hp. unfold encoder_store in Hp.
  repeat (apply present_app in Hp; destruct Hp as [? Hp]).
  unfold encoder, with_variable_scope, conv2d, batch_norm.
  do 5 run_reuse. reflexivity.
Qed.

Lemma decoder_present x reuse sc st nd st' :
  decoder tf cfg x reuse sc st = (Ok nd, st') ->
  present (decoder_store tf (sc_prefix sc)) st'.
Proof.
  unfold decoder, with_variable_scope, deconv2d, batch_norm. intros H.
  repeat graph_inv H. layer_facts. subst.
  unfold decoder_store. simpl in *. present_tac.
Qed.

Lemma decoder_reuse x reuse sc st :
  sc_reuse (variable_scope "decoder" reuse sc) = true ->
  present (decoder_store tf (sc_prefix sc)) st ->
  decoder tf cfg x reuse sc st =
    (Ok (fun e => decoder_fwd tf cfg (sc_prefix sc) (vars e) (x e)), st).
Proof.
  intros Hr Hp. unfold decoder_store in Hp.
  repeat (apply present_app in Hp; destruct Hp as [? Hp]).
  unfold decoder, with_variable_scope, deconv2d, batch_norm.
  do 5 run_reuse. reflexivity.
Qed.

Lemma discriminator_present x reuse sc st out st' :
  discriminator tf cfg x reuse sc st = (Ok out, st') ->
  present (discriminator_store tf (sc_prefix sc)) st'.
Proof.
  unfold discriminator, with_variable_scope. intros H. do 3 graph_inv H.
  pose proof (encoder_present _ _ _ _ _ _ Hrun) as He.
  pose proof (decoder_present _ _ _ _ _ _ Hrun0) as Hd.
  destruct (scoped_run _ _ _ _ _ (scoped_decoder tf cfg _ _) Hrun0) as (new & ->).
  unfold discriminator_store. apply present_app. split.
  - apply present_mono. exact He.
  - exact Hd.
Qed.

Lemma discriminator_reuse x sc st :
  present (discriminator_store tf (sc_prefix sc)) st ->
  discriminator tf cfg x (Some true) sc st =
    (Ok (fun e => fst (discriminator_fwd tf cfg (sc_prefix sc) (vars e) (x e)),
         fun e => snd (discriminator_fwd tf cfg (sc_prefix sc) (vars e) (x e))), st).
Proof.
  intros Hp. unfold discriminator_store in Hp. apply present_app in Hp as [He Hd].
  unfold discriminator, with_variable_scope.
  erewrite bind_run by (apply encoder_reuse; [reflexivity | exact He]).
  erewrite bind_run by (apply decoder_reuse; [reflexivity | exact Hd]).
  reflexivity.
Qed.

Lemma generator_present z reuse is_train sc st nd st' :
  generator tf cfg z reuse is_train sc st = (Ok nd, st') ->
  present (generator_store tf (sc_prefix sc)) st'.
Proof.
  unfold generator, with_variable_scope, dense, deconv2d, batch_norm. intros H.
  repeat graph_inv H. layer_facts. apply assert_Ok in Hrun as [_ ->]. subst.
  unfold generator_store. simpl in *. present_tac.
Qed.

Lemma generator_reuse z is_train sc st :
  (fc_unit cfg =? 4 * 4 * gf_dim cfg / 2)%Z = true ->
  present (generator_store tf (sc_prefix sc)) st ->
  generator tf cfg z (Some true) is_train sc st =
    (Ok (fun e => generator_fwd tf cfg (sc_prefix sc) is_train (vars e) (z e)), st).
Proof.
  intros Ha Hp. unfold generator_store in Hp.
  repeat (apply present_app in Hp; destruct Hp as [? Hp]).
  unfold generator, with_variable_scope, dense, deconv2d, batch_norm.
  rewrite Ha. erewrite bind_run by reflexivity. cbv beta.
  do 7 run_reuse. reflexivity.
Qed.

End ReuseNetworks.

(** ** The discriminator *)

(** C4: the discriminator returns the pair (encoder of [x], decoder of
    the encoder of [x]); and when it is invoked a second time, on
    another batch [y] with reuse enabled, the second invocation
    succeeds, creates no variable, and computes the same two functions
    of the same variable values. *)
Theorem discriminator_shared tf cfg x y sc st out st1 :
  discriminator tf cfg x None sc st = (Ok out, st1) ->
  let q := sc_prefix sc +:+ "discriminator" +:+ "/" in
  (forall e : Env,
     fst out e = encoder_fwd tf cfg q (vars e) (x e) /\
     snd out e = decoder_fwd tf cfg q (vars e) (encoder_fwd tf cfg q (vars e) (x e))) /\
  exists out2,
    discriminator tf cfg y (Some true) sc st1 = (Ok out2, st1) /\
    forall e : Env,
      fst out2 e = encoder_fwd tf cfg q (vars e) (y e) /\
      snd out2 e = decoder_fwd tf cfg q (vars e) (encoder_fwd tf cfg q (vars e) (y e)).
Proof.
  intros H q. split.
  - apply discriminator_Ok in H. subst out. intros e. split; reflexivity.
  - apply discriminator_present in H.
    eexists. split; [apply discriminator_reuse; exact H|].
    intros e. split; reflexivity.
Qed.

Lemma discriminator_shared_witness :
  discriminator toy default_config placeholder_x None root_scope (generator_store toy "") =
    (Ok (fun e => fst (discriminator_fwd toy default_config "" (vars e) (feed_x e)),
         fun e => snd (discriminator_fwd toy default_config "" (vars e) (feed_x e))),
     toy_store) /\
  exists out2,
    discriminator toy default_config (g toy_model) (Some true) root_scope toy_store =
      (Ok out2, toy_store) /\
    forall e : Env,
      fst out2 e = encoder_fwd toy default_config "discriminator/" (vars e) (g toy_model e) /\
      snd out2 e =
        decoder_fwd toy default_config "discriminator/" (vars e)
          (encoder_fwd toy default_config "discriminator/" (vars e) (g toy_model e)).
Proof.
  split; [reflexivity|].
  apply (discriminator_shared toy default_config placeholder_x (g toy_model) root_scope
           (generator_store toy "")
           (fun e => fst (discriminator_fwd toy default_config "" (vars e) (feed_x e)),
            fun e => snd (discriminator_fwd toy default_config "" (vars e) (feed_x e)))
           toy_store).
  reflexivity.
Defined.

(** ** Creating the variables of a network *)

Lemma prefix_fresh_var q sfx st :
  prefix_fresh q st -> var_exists (q +:+ sfx) st = false.
Proof.
  intros Hf. destruct (var_exists (q +:+ sfx) st) eqn:He; [exfalso | reflexivity].
  apply var_exists_inv in He as (v & Hv & Hn).
  unfold prefix_fresh in Hf. rewrite Forall_forall in Hf. specialize (Hf v Hv).
  rewrite Hn, prefix_app in Hf. discriminate Hf.
Qed.

Lemma prefix_fresh_app q st1 st2 :
  prefix_fresh q (st1 ++ st2) <-> prefix_fresh q st1 /\ prefix_fresh q st2.
Proof. unfold prefix_fresh. apply Forall_app. Qed.

Lemma prefix_fresh_weaken q a st :
  prefix_fresh q st -> prefix_fresh (q +:+ a) st.
Proof.
  unfold prefix_fresh. intros H. eapply Forall_impl; [exact H|].
  intros v Hv. cbv beta in *.
  destruct (String.prefix (q +:+ a) (v_name v)) eqn:Hp; [|reflexivity].
  rewrite (prefix_trans q (q +:+ a) (v_name v) (prefix_app q a) Hp) in Hv. discriminate Hv.
Qed.

(** Variables under one prefix are fresh for a disjoint one. *)
Lemma prefix_fresh_disjoint q a b st :
  disjoint_prefix a b = true ->
  Forall (fun v => String.prefix (q +:+ a) (v_name v) = true) st ->
  prefix_fresh (q +:+ b) st.
Proof.
  intros Hd H. unfold prefix_fresh. eapply Forall_impl; [exact H|].
  intros v Hv. exact (disjoint_prefix_false q a b _ Hd Hv).
Qed.

Lemma mapM_get_variable_fresh (l : list (string * bool)) sc st :
  sc_reuse sc = false ->
  NoDup (fst <$> l) ->
  Forall (fun v => var_exists (sc_prefix sc +:+ fst v) st = false) l ->
  mapM (fun v => get_variable (fst v) (snd v)) l sc st =
    (Ok ((fun v => sc_prefix sc +:+ fst v) <$> l),
     st ++ ((fun v => mkVar (sc_prefix sc +:+ fst v) (snd v)) <$> l)).
Proof.
  intros Hr. revert st. induction l as [|v l IH]; intros st Hnd Hl; simpl.
  - rewrite app_nil_r. reflexivity.
  - rewrite fmap_cons in Hnd. apply NoDup_cons in Hnd as [Hv Hnd].
    inversion Hl as [|? ? Hfv Hl']; subst.
    assert (Hg : get_variable (fst v) (snd v) sc st =
                   (Ok (sc_prefix sc +:+ fst v),
                    st ++ [mkVar (sc_prefix sc +:+ fst v) (snd v)])).
    { unfold get_variable. rewrite Hr, Hfv. reflexivity. }
    rewrite (bind_run _ _ _ _ _ _ Hg).
    assert (Hl1 : Forall (fun w => var_exists (sc_prefix sc +:+ fst w)
                            (st ++ [mkVar (sc_prefix sc +:+ fst v) (snd v)]) = false) l).
    { apply Forall_forall. intros w Hw.
      rewrite Forall_forall in Hl'. rewrite var_exists_app, (Hl' w Hw).
      unfold var_exists. simpl. rewrite orb_false_r.
      apply String.eqb_neq. intros Heq. apply (inj (String.app (sc_prefix sc))) in Heq.
      apply Hv. rewrite Heq. apply list_elem_of_fmap. exists w.
      split; [reflexivity | exact Hw]. }
    rewrite (bind_run _ _ _ _ _ _ (IH _ Hnd Hl1)).
    unfold ret. rewrite <- app_assoc. reflexivity.
Qed.

Section Fresh.
Context (tf : Substrate) (cfg : Config).

Lemma layer_fresh k op x name sc st :
  sc_reuse sc = false ->
  well_formed tf ->
  prefix_fresh (sc_prefix sc +:+ name +:+ "/") st ->
  layer tf k op x name sc st =
    (Ok (fun e => op (weights (vars e) (layer_names tf (sc_prefix sc) name k)) (x e)),
     st ++ layer_store tf (sc_prefix sc) name k).
Proof.
  intros Hr Hwf Hf. unfold layer.
  assert (Hl : layer_variables tf name k sc st =
                 (Ok (layer_names tf (sc_prefix sc) name k),
                  st ++ layer_store tf (sc_prefix sc) name k)).
  { unfold layer_variables, with_variable_scope.
    apply mapM_get_variable_fresh; [exact Hr | apply Hwf |].
    apply Forall_forall. intros v _. apply prefix_fresh_var. exact Hf. }
  rewrite (bind_run _ _ _ _ _ _ Hl). reflexivity.
Qed.

Lemma layer_store_under q name k :
  Forall (fun v => String.prefix (q +:+ name +:+ "/") (v_name v) = true)
         (layer_store tf q name k).
Proof.
  unfold layer_store. apply Forall_fmap, Forall_forall. intros v _. simpl.
  apply prefix_app.
Qed.

Lemma prefix_fresh_layer_store q n1 n2 k :
  disjoint_prefix (n1 +:+ "/") (n2 +:+ "/") = true ->
  prefix_fresh (q +:+ n2 +:+ "/") (layer_store tf q n1 k).
Proof.
  intros Hd. apply (prefix_fresh_disjoint q (n1 +:+ "/") (n2 +:+ "/")); [exact Hd|].
  apply layer_store_under.
Qed.

End Fresh.

Ltac fresh_tac :=
  repeat match goal with
    | |- prefix_fresh _ (_ ++ _) => apply prefix_fresh_app; split
    end;
  first [ apply prefix_fresh_weaken; assumption
        | apply prefix_fresh_layer_store; reflexivity ].

(** Run the next layer of a creating scope. *)
Ltac run_fresh :=
  erewrite bind_run by (apply layer_fresh; [assumption | assumption | fresh_tac]);
  cbv beta.

Section FreshNetworks.
Context (tf : Substrate) (cfg : Config).

Lemma generator_fresh z is_train sc st :
  (fc_unit cfg =? 4 * 4 * gf_dim cfg / 2)%Z = true ->
  well_formed tf ->
  sc_reuse sc = false ->
  prefix_fresh (sc_prefix sc +:+ "generator" +:+ "/") st ->
  generator tf cfg z None is_train sc st =
    (Ok (fun e => generator_fwd tf cfg (sc_prefix sc) is_train (vars e) (z e)),
     st ++ generator_store tf (sc_prefix sc)).
Proof.
  intros Ha Hwf Hr Hf.
  unfold generator, with_variable_scope, dense, deconv2d, batch_norm.
  rewrite Ha. erewrite bind_run by reflexivity. cbv beta.
  do 7 run_fresh.
  unfold ret, generator_store. rewrite <- !app_assoc. reflexivity.
Qed.

End FreshNetworks.

(** ** The generator's assertion *)

Lemma assertion_value (gf : Z) : (4 * 4 * gf / 2 = 8 * gf)%Z.
Proof.
  replace (4 * 4 * gf)%Z with (8 * gf * 2)%Z by lia.
  apply Z.div_mul. discriminate.
Qed.

(** The asserted condition, in exact arithmetic. *)
Lemma assertion_spec (cfg : Config) :
  (fc_unit cfg =? 4 * 4 * gf_dim cfg / 2)%Z = true <-> spec_fc_unit_ok cfg.
Proof.
  unfold spec_fc_unit_ok. rewrite Z.eqb_eq, assertion_value.
  assert (Hq : (4 * 4 * (inject_Z (gf_dim cfg) / 2) == inject_Z (8 * gf_dim cfg))%Q).
  { rewrite inject_Z_mult. change (inject_Z 8) with (8 # 1)%Q. field. }
  rewrite Hq. symmetry. apply inject_Z_injective.
Qed.

Lemma generator_assertion_fails tf cfg z reuse is_train sc st :
  (fc_unit cfg =? 4 * 4 * gf_dim cfg / 2)%Z = false ->
  generator tf cfg z reuse is_train sc st = (Raise AssertionError, st).
Proof.
  intros Ha. unfold generator, with_variable_scope. rewrite Ha. reflexivity.
Qed.





(** X14: when the assertion passes, the asserted width [fc_unit] is
    the number of elements [4 * 4 * (gf_dim // 2)] of one row of the
    later [tf.reshape(x, (-1, 4, 4, gf_dim // 2))] exactly when
    [gf_dim] is even. *)
Lemma assertion_reshape_width (cfg : Config) :
  (fc_unit cfg =? 4 * 4 * gf_dim cfg / 2)%Z = true ->
  (fc_unit cfg = 4 * 4 * (gf_dim cfg / 2))%Z <-> Z.even (gf_dim cfg) = true.
Proof.
  rewrite Z.eqb_eq, assertion_value. intros ->.
  rewrite Z.even_spec. split.
  - intros H. exists (gf_dim cfg / 2)%Z. lia.
  - intros [k ->]. rewrite (Z.mul_comm 2 k), Z.div_mul by discriminate. lia.
Qed.

Section Whole.
Context (tf : Substrate) (cfg : Config).

Lemma encoder_store_under p :
  Forall (fun v => String.prefix (p +:+ "encoder" +:+ "/") (v_name v) = true)
         (encoder_store tf p).
Proof.
  unfold encoder_store. repeat (apply Forall_app; split);
    (eapply Forall_impl; [apply layer_store_under|]); intros v Hv;
    exact (prefix_trans _ _ _ (prefix_app _ _) Hv).
Qed.

Lemma decoder_store_under p :
  Forall (fun v => String.prefix (p +:+ "decoder" +:+ "/") (v_name v) = true)
         (decoder_store tf p).
Proof.
  unfold decoder_store. repeat (apply Forall_app; split);
    (eapply Forall_impl; [apply layer_store_under|]); intros v Hv;
    exact (prefix_trans _ _ _ (prefix_app _ _) Hv).
Qed.

Lemma generator_store_under p :
  Forall (fun v => String.prefix (p +:+ "generator" +:+ "/") (v_name v) = true)
         (generator_store tf p).
Proof.
  unfold generator_store. repeat (apply Forall_app; split);
    (eapply Forall_impl; [apply layer_store_under|]); intros v Hv;
    exact (prefix_trans _ _ _ (prefix_app _ _) Hv).
Qed.

Lemma encoder_fresh x sc st :
  well_formed tf ->
  sc_reuse sc = false ->
  prefix_fresh (sc_prefix sc +:+ "encoder" +:+ "/") st ->
  encoder tf cfg x None sc st =
    (Ok (fun e => encoder_fwd tf cfg (sc_prefix sc) (vars e) (x e)),
     st ++ encoder_store tf (sc_prefix sc)).
Proof.
  intros Hwf Hr Hf. unfold encoder, with_variable_scope, conv2d, batch_norm.
  do 5 run_fresh.
  unfold ret, encoder_store. rewrite <- !app_assoc. reflexivity.
Qed.

Lemma decoder_fresh x sc st :
  well_formed tf ->
  sc_reuse sc = false ->
  prefix_fresh (sc_prefix sc +:+ "decoder" +:+ "/") st ->
  decoder tf cfg x None sc st =
    (Ok (fun e => decoder_fwd tf cfg (sc_prefix sc) (vars e) (x e)),
     st ++ decoder_store tf (sc_prefix sc)).
Proof.
  intros Hwf Hr Hf. unfold decoder, with_variable_scope, deconv2d, batch_norm.
  do 5 run_fresh.
  unfold ret, decoder_store. rewrite <- !app_assoc. reflexivity.
Qed.

Lemma discriminator_fresh x sc st :
  well_formed tf ->
  sc_reuse sc = false ->
  prefix_fresh (sc_prefix sc +:+ "discriminator" +:+ "/") st ->
  discriminator tf cfg x None sc st =
    (Ok (fun e => fst (discriminator_fwd tf cfg (sc_prefix sc) (vars e) (x e)),
         fun e => snd (discriminator_fwd tf cfg (sc_prefix sc) (vars e) (x e))),
     st ++ discriminator_store tf (sc_prefix sc)).
Proof.
  intros Hwf Hr Hf. unfold discriminator, with_variable_scope.
  erewrite bind_run by
    (apply encoder_fresh; [exact Hwf | exact Hr | apply prefix_fresh_weaken; exact Hf]).
  erewrite bind_run.
  2:{ apply decoder_fresh; [exact Hwf | exact Hr |].
      apply prefix_fresh_app. split.
      - apply prefix_fresh_weaken. exact Hf.
      - apply (prefix_fresh_disjoint _ "encoder/" "decoder/"); [reflexivity|].
        apply encoder_store_under. }
  unfold ret, discriminator_store. rewrite <- !app_assoc. reflexivity.
Qed.

End Whole.

(** * Further properties of the construction *)

Lemma bind_fail {A B} (m : Graph A) (f : A -> Graph B) sc st e st1 :
  m sc st = (Raise e, st1) -> bind m f sc st = (Raise e, st1).
Proof. unfold bind. intros ->. reflexivity. Qed.

(** ** Reusing scopes create nothing *)

Lemma reuse_stable_ret {A} (a : A) : reuse_stable (ret a).
Proof. intros sc st _. reflexivity. Qed.

Lemma reuse_stable_assert b : reuse_stable (assert_ b).
Proof. intros sc st _. unfold assert_. destruct b; reflexivity. Qed.

Lemma reuse_stable_bind {A B} (m : Graph A) (f : A -> Graph B) :
  reuse_stable m -> (forall a, reuse_stable (f a)) -> reuse_stable (bind m f).
Proof.
  intros Hm Hf sc st Hr. unfold bind. specialize (Hm sc st Hr).
  destruct (m sc st) as [[a|e] st1]; simpl in Hm; subst st1.
  - apply Hf. exact Hr.
  - reflexivity.
Qed.

Lemma reuse_stable_get_variable name tr : reuse_stable (get_variable name tr).
Proof.
  intros sc st Hr. unfold get_variable. rewrite Hr.
  destruct (var_exists _ st); reflexivity.
Qed.

Lemma reuse_stable_mapM {A B} (f : A -> Graph B) (l : list A) :
  (forall a, reuse_stable (f a)) -> reuse_stable (mapM f l).
Proof.
  intros Hf. induction l as [|a l IH]; simpl.
  - apply reuse_stable_ret.
  - apply reuse_stable_bind; [apply Hf|]. intros b.
    apply reuse_stable_bind; [exact IH|]. intros bs. apply reuse_stable_ret.
Qed.

Lemma reuse_stable_with_variable_scope {A} name reuse (body : Graph A) :
  reuse_stable body -> reuse_stable (with_variable_scope name reuse body).
Proof.
  intros Hb sc st Hr. unfold with_variable_scope. apply Hb.
  simpl. rewrite Hr. destruct reuse as [[|]|]; reflexivity.
Qed.

(** A block opened with [reuse=True] creates nothing, whatever the
    enclosing scope. *)
Lemma reuse_opened {A} name (body : Graph A) :
  reuse_stable body ->
  forall sc st, snd (with_variable_scope name (Some true) body sc st) = st.
Proof. intros Hb sc st. unfold with_variable_scope. apply Hb. reflexivity. Qed.

Ltac reuse_tac :=
  repeat first
    [ progress intros
    | apply reuse_stable_ret
    | apply reuse_stable_assert
    | apply reuse_stable_get_variable
    | apply reuse_stable_mapM
    | apply reuse_stable_with_variable_scope
    | apply reuse_stable_bind ].

Lemma reuse_stable_encoder tf cfg x reuse : reuse_stable (encoder tf cfg x reuse).
Proof. unfold encoder, conv2d, batch_norm, layer, layer_variables. reuse_tac. Qed.

Lemma reuse_stable_decoder tf cfg x reuse : reuse_stable (decoder tf cfg x reuse).
Proof. unfold decoder, deconv2d, batch_norm, layer, layer_variables. reuse_tac. Qed.

(** X18: with [reuse=True] the four networks never add a variable to the
    graph, whether the construction succeeds or raises. *)
Theorem reuse_creates_nothing tf cfg x is_train sc st :
  snd (encoder tf cfg x (Some true) sc st) = st /\
  snd (decoder tf cfg x (Some true) sc st) = st /\
  snd (discriminator tf cfg x (Some true) sc st) = st /\
  snd (generator tf cfg x (Some true) is_train sc st) = st.
Proof.
  repeat split.
  - unfold encoder, conv2d, batch_norm, layer, layer_variables.
    apply reuse_opened. reuse_tac.
  - unfold decoder, deconv2d, batch_norm, layer, layer_variables.
    apply reuse_opened. reuse_tac.
  - unfold discriminator. apply reuse_opened.
    apply reuse_stable_bind; [apply reuse_stable_encoder|]. intros emb.
    apply reuse_stable_bind; [apply reuse_stable_decoder|]. intros dec.
    apply reuse_stable_ret.
  - unfold generator, dense, deconv2d, batch_norm, layer, layer_variables.
    apply reuse_opened. reuse_tac.
Qed.

(** ** Errors of construction *)

(** X2: when the generator's invariant is violated, building the whole
    model raises [AssertionError] at its first statement and leaves the
    graph without any new variable, in every scope and on every graph. *)
Theorem build_magan_assertion_fails tf cfg sc st :
  ~ spec_fc_unit_ok cfg ->
  build_magan tf cfg sc st = (Raise AssertionError, st).
Proof.
  intros Hs. unfold build_magan. apply bind_fail.
  apply generator_assertion_fails.
  destruct (fc_unit cfg =? 4 * 4 * gf_dim cfg / 2)%Z eqn:Ha; [|reflexivity].
  exfalso. apply Hs, assertion_spec. exact Ha.
Qed.

Lemma build_magan_assertion_fails_witness :
  ~ spec_fc_unit_ok bad_config /\
  build_magan toy bad_config root_scope [] = (Raise AssertionError, []).
Proof.
  assert (Hbad : ~ spec_fc_unit_ok bad_config) by (intros H; discriminate H).
  split; [exact Hbad|].
  apply (build_magan_assertion_fails toy bad_config root_scope []). exact Hbad.
Defined.

Lemma generator_Ok_assert tf cfg z reuse is_train sc st nd st' :
  generator tf cfg z reuse is_train sc st = (Ok nd, st') ->
  (fc_unit cfg =? 4 * 4 * gf_dim cfg / 2)%Z = true.
Proof.
  unfold generator, with_variable_scope. intros H. graph_inv H.
  apply assert_Ok in Hrun as [Ha _]. exact Ha.
Qed.

(** The first variable of a layer decides: created twice, or reused
    before it exists, the layer raises [ValueError] at once. *)
Lemma layer_first_variable tf k op x name sc st v l :
  layer_vars tf k = v :: l ->
  var_exists ((sc_prefix sc +:+ name +:+ "/") +:+ fst v) st = negb (sc_reuse sc) ->
  layer tf k op x name sc st = (Raise ValueError, st).
Proof.
  intros Hk He. unfold layer. apply bind_fail.
  unfold layer_variables, with_variable_scope. rewrite Hk. simpl mapM.
  apply bind_fail. unfold get_variable. simpl sc_prefix. simpl sc_reuse.
  rewrite He. destruct (sc_reuse sc); reflexivity.
Qed.

Lemma present_first_variable tf q name k st v l :
  layer_vars tf k = v :: l ->
  present (layer_store tf q name k) st ->
  var_exists ((q +:+ name +:+ "/") +:+ fst v) st = true.
Proof.
  intros Hk Hp. unfold present, layer_store in Hp. rewrite Hk in Hp.
  rewrite fmap_cons in Hp. inversion Hp; subst. assumption.
Qed.

Lemma generator_exists_fails tf cfg z is_train sc st :
  (fc_unit cfg =? 4 * 4 * gf_dim cfg / 2)%Z = true ->
  layer_vars tf Dense <> [] ->
  sc_reuse sc = false ->
  present (generator_store tf (sc_prefix sc)) st ->
  generator tf cfg z None is_train sc st = (Raise ValueError, st).
Proof.
  intros Ha Hk Hr Hp. destruct (layer_vars tf Dense) as [|v l] eqn:Hv; [contradiction|].
  unfold generator_store in Hp. apply present_app in Hp as [Hp _].
  unfold generator, with_variable_scope, dense.
  rewrite Ha. erewrite bind_run by reflexivity. cbv beta.
  apply bind_fail. eapply layer_first_variable; [exact Hv|].
  simpl sc_reuse. rewrite Hr.
  exact (present_first_variable tf _ _ _ _ _ _ Hv Hp).
Qed.

Lemma discriminator_run_grows tf cfg x reuse sc st r st' :
  discriminator tf cfg x reuse sc st = (r, st') -> exists new, st' = st ++ new.
Proof.
  intros H. destruct (discriminator_under tf cfg x reuse sc st) as (new & E & _).
  rewrite H in E. exists new. exact E.
Qed.

Lemma build_magan_present tf cfg sc st M st1 :
  build_magan tf cfg sc st = (Ok M, st1) ->
  present (generator_store tf (sc_prefix sc)) st1 /\
  present (discriminator_store tf (sc_prefix sc)) st1.
Proof.
  unfold build_magan. intros H. do 5 graph_inv H.
  pose proof (generator_present _ _ _ _ _ _ _ _ _ Hrun0) as Hg.
  pose proof (discriminator_present _ _ _ _ _ _ _ _ Hrun2) as Hd.
  destruct (discriminator_run_grows _ _ _ _ _ _ _ _ Hrun1) as (n3 & E3).
  destruct (discriminator_run_grows _ _ _ _ _ _ _ _ Hrun2) as (n4 & E4).
  unfold get_trainable_variables in Hrun3. inversion Hrun3; subst; clear Hrun3.
  do 3 graph_inv H.
  apply minimize_Ok in Hrun3 as (_ & _ & ->).
  apply minimize_Ok in Hrun4 as (_ & _ & ->).
  apply minimize_Ok in Hrun5 as (_ & _ & ->).
  graph_inv H. split; [|exact Hd].
  apply present_mono, present_mono. exact Hg.
Qed.

(** X3: a model cannot be built twice in one graph: after a successful
    [build_magan], a second [build_magan] in the same (non-reusing)
    scope raises [ValueError] at the generator's first layer, whose
    variable already exists, and adds nothing. *)
Theorem build_twice_fails tf cfg sc st M st1 :
  build_magan tf cfg sc st = (Ok M, st1) ->
  sc_reuse sc = false ->
  layer_vars tf Dense <> [] ->
  build_magan tf cfg sc st1 = (Raise ValueError, st1).
Proof.
  intros H Hr Hk.
  pose proof (build_magan_present _ _ _ _ _ _ H) as [Hg _].
  assert (Ha : (fc_unit cfg =? 4 * 4 * gf_dim cfg / 2)%Z = true).
  { unfold build_magan in H. graph_inv H. exact (generator_Ok_assert _ _ _ _ _ _ _ _ _ Hrun). }
  unfold build_magan. apply bind_fail.
  apply generator_exists_fails; assumption.
Qed.

Lemma build_twice_fails_witness :
  build_magan toy default_config root_scope [] = (Ok toy_model, toy_store) /\
  sc_reuse root_scope = false /\
  layer_vars toy Dense <> [] /\
  build_magan toy default_config root_scope toy_store = (Raise ValueError, toy_store).
Proof.
  assert (Hk : layer_vars toy Dense <> []) by discriminate.
  split; [reflexivity|]. split; [reflexivity|]. split; [exact Hk|].
  apply (build_twice_fails toy default_config root_scope [] toy_model toy_store);
    [reflexivity | reflexivity | exact Hk].
Defined.

(** X4: [reuse=True] before the variables exist is an error: on a
    graph with no variable under the generator's (the discriminator's)
    scope, the reusing construction raises [ValueError] and adds
    nothing. *)
Theorem reuse_before_create tf cfg sc st :
  (forall z is_train,
     (fc_unit cfg =? 4 * 4 * gf_dim cfg / 2)%Z = true ->
     layer_vars tf Dense <> [] ->
     prefix_fresh (sc_prefix sc +:+ "generator" +:+ "/") st ->
     generator tf cfg z (Some true) is_train sc st = (Raise ValueError, st)) /\
  (forall x,
     layer_vars tf Conv2d <> [] ->
     prefix_fresh (sc_prefix sc +:+ "discriminator" +:+ "/") st ->
     discriminator tf cfg x (Some true) sc st = (Raise ValueError, st)).
Proof.
  split.
  - intros z is_train Ha Hk Hf.
    destruct (layer_vars tf Dense) as [|v l] eqn:Hv; [contradiction|].
    unfold generator, with_variable_scope, dense.
    rewrite Ha. erewrite bind_run by reflexivity. cbv beta.
    apply bind_fail. eapply layer_first_variable; [exact Hv|].
    simpl sc_reuse. simpl sc_prefix. apply prefix_fresh_var.
    apply prefix_fresh_weaken. exact Hf.
  - intros x Hk Hf.
    destruct (layer_vars tf Conv2d) as [|v l] eqn:Hv; [contradiction|].
    unfold discriminator, with_variable_scope. apply bind_fail.
    unfold encoder, with_variable_scope, conv2d.
    apply bind_fail. eapply layer_first_variable; [exact Hv|].
    simpl sc_reuse. simpl sc_prefix. apply prefix_fresh_var.
    do 2 apply prefix_fresh_weaken. exact Hf.
Qed.

Lemma reuse_before_create_witness :
  generator toy default_config placeholder_z (Some true) false root_scope [] =
    (Raise ValueError, []) /\
  discriminator toy default_config placeholder_x (Some true) root_scope [] =
    (Raise ValueError, []).
Proof.
  destruct (reuse_before_create toy default_config root_scope []) as [Hg Hd].
  split.
  - apply Hg; [reflexivity | discriminate | constructor].
  - apply Hd; [discriminate | constructor].
Defined.



(** ** What construction does to the graph *)

(** X6: whatever the outcome, each network keeps the variables that
    were in the graph, in their order, and adds variables only under
    its own scope ([encoder/], [decoder/], [discriminator/],
    [generator/] below the current one); [build_magan] adds only under
    the current scope. *)
Theorem construction_scoped tf cfg x reuse is_train sc st :
  under (sc_prefix sc +:+ "encoder" +:+ "/") st (snd (encoder tf cfg x reuse sc st)) /\
  under (sc_prefix sc +:+ "decoder" +:+ "/") st (snd (decoder tf cfg x reuse sc st)) /\
  under (sc_prefix sc +:+ "discriminator" +:+ "/") st
    (snd (discriminator tf cfg x reuse sc st)) /\
  under (sc_prefix sc +:+ "generator" +:+ "/") st
    (snd (generator tf cfg x reuse is_train sc st)) /\
  under (sc_prefix sc) st (snd (build_magan tf cfg sc st)).
Proof.
  repeat split.
  - unfold encoder. apply opened_under. scoped_tac.
  - unfold decoder. apply opened_under. scoped_tac.
  - apply discriminator_under.
  - apply generator_under.
  - assert (Hs : scoped (build_magan tf cfg)); [|apply Hs].
    unfold build_magan. scoped_tac.
Qed.

(** ** Building the encoder, the decoder, the discriminator *)







(** ** Which variables a network reads *)

Lemma layer_weights_local tf (theta1 theta2 : gmap string Tensor) q name k :
  (forall n, String.prefix q n = true -> theta1 !! n = theta2 !! n) ->
  weights theta1 (layer_names tf q name k) = weights theta2 (layer_names tf q name k).
Proof.
  intros H. unfold weights, layer_names. rewrite <- !list_fmap_compose.
  apply list_fmap_ext. intros i v _. simpl. apply H.
  exact (prefix_trans _ _ _ (prefix_app q (name +:+ "/")) (prefix_app _ (fst v))).
Qed.

Lemma generator_fwd_local tf cfg p is_train (theta1 theta2 : gmap string Tensor) z :
  (forall n, String.prefix (p +:+ "generator" +:+ "/") n = true ->
             theta1 !! n = theta2 !! n) ->
  generator_fwd tf cfg p is_train theta1 z = generator_fwd tf cfg p is_train theta2 z.
Proof.
  intros H. unfold generator_fwd, dense_layer, bn_layer, deconv_layer.
  rewrite !(layer_weights_local tf theta1 theta2 _ _ _ H). reflexivity.
Qed.

Lemma discriminator_fwd_local tf cfg p (theta1 theta2 : gmap string Tensor) x :
  (forall n, String.prefix (p +:+ "discriminator" +:+ "/") n = true ->
             theta1 !! n = theta2 !! n) ->
  discriminator_fwd tf cfg p theta1 x = discriminator_fwd tf cfg p theta2 x.
Proof.
  intros H.
  assert (He : forall n, String.prefix ((p +:+ "discriminator" +:+ "/") +:+ "encoder" +:+ "/") n
                         = true -> theta1 !! n = theta2 !! n).
  { intros n Hn. apply H. exact (prefix_trans _ _ _ (prefix_app _ _) Hn). }
  assert (Hd : forall n, String.prefix ((p +:+ "discriminator" +:+ "/") +:+ "decoder" +:+ "/") n
                         = true -> theta1 !! n = theta2 !! n).
  { intros n Hn. apply H. exact (prefix_trans _ _ _ (prefix_app _ _) Hn). }
  unfold discriminator_fwd, encoder_fwd, decoder_fwd, conv_layer, bn_layer, deconv_layer.
  rewrite !(layer_weights_local tf theta1 theta2 _ _ _ He).
  rewrite !(layer_weights_local tf theta1 theta2 _ _ _ Hd). reflexivity.
Qed.

(** X10: what a built network computes depends on the variable values
    only through the variables under its own scope: the generator
    never reads a variable outside [generator/], the discriminator
    none outside [discriminator/]. *)
Theorem networks_read_own_variables tf cfg z x reuse is_train sc st nd out st1 st2
    (e1 e2 : Env) :
  generator tf cfg z reuse is_train sc st = (Ok nd, st1) ->
  discriminator tf cfg x reuse sc st1 = (Ok out, st2) ->
  z e1 = z e2 -> x e1 = x e2 ->
  ((forall n, String.prefix (sc_prefix sc +:+ "generator" +:+ "/") n = true ->
              vars e1 !! n = vars e2 !! n) ->
   nd e1 = nd e2) /\
  ((forall n, String.prefix (sc_prefix sc +:+ "discriminator" +:+ "/") n = true ->
              vars e1 !! n = vars e2 !! n) ->
   fst out e1 = fst out e2 /\ snd out e1 = snd out e2).
Proof.
  intros Hg Hd Hz Hx. apply generator_Ok in Hg. apply discriminator_Ok in Hd. subst nd out.
  split.
  - intros H. rewrite Hz. apply generator_fwd_local. exact H.
  - intros H. cbn [fst snd]. rewrite Hx.
    rewrite (discriminator_fwd_local tf cfg _ _ _ (x e2) H). split; reflexivity.
Qed.

Lemma networks_read_own_variables_witness :
  generator toy default_config placeholder_z None true root_scope [] =
    (Ok (g toy_model), generator_store toy "") /\
  g toy_model toy_env = g toy_model (with_vars toy_env (d_op toy_model toy_env)).
Proof.
  split; [reflexivity|].
  refine (proj1 (networks_read_own_variables toy default_config placeholder_z placeholder_x
                   None true root_scope [] (g toy_model)
                   (fun e => fst (discriminator_fwd toy default_config "" (vars e) (feed_x e)),
                    fun e => snd (discriminator_fwd toy default_config "" (vars e) (feed_x e)))
                   (generator_store toy "") toy_store
                   toy_env (with_vars toy_env (d_op toy_model toy_env))
                   _ _ _ _) _); try reflexivity.
  intros n Hn. symmetry. apply apply_updates_frame.
  rewrite elem_of_filter_startswith. intros [_ Hs].
  assert (Hgn : startswith n "g" = true).
  { unfold startswith. refine (prefix_trans _ _ _ _ Hn). reflexivity. }
  apply startswith_g_not_d in Hgn. congruence.
Defined.

(** ** Alternating the training steps *)

(** X11: for a model built at top level, a discriminator step
    ([d_real_op] or [d_op]) leaves the generator's output, in training
    and in sampling mode, as it was for the same noise; a generator
    step ([g_op]) leaves the discriminator's reconstruction of every
    input, and so [d_real_loss], as it was. *)
Theorem steps_do_not_interfere tf cfg st M st' :
  build_magan tf cfg root_scope st = (Ok M, st') ->
  forall e : Env,
    g M (with_vars e (d_real_op M e)) = g M e /\
    g M (with_vars e (d_op M e)) = g M e /\
    g_test M (with_vars e (d_real_op M e)) = g_test M e /\
    g_test M (with_vars e (d_op M e)) = g_test M e /\
    (forall x, reconstruction tf cfg "" (g_op M e) x = reconstruction tf cfg "" (vars e) x) /\
    d_real_loss M (with_vars e (g_op M e)) = d_real_loss M e.
Proof.
  intros H e. apply build_magan_Ok in H. subst M. simpl.
  set (t_vars := trainable_variables st').
  assert (Hd : forall lr loss n,
            String.prefix "generator/" n = true ->
            train_op tf lr loss (List.filter (fun v => startswith v "d") t_vars) e !! n
            = vars e !! n).
  { intros lr loss n Hn. apply apply_updates_frame.
    rewrite elem_of_filter_startswith. intros [_ Hs].
    assert (Hgn : startswith n "g" = true).
    { unfold startswith. refine (prefix_trans _ _ _ _ Hn). reflexivity. }
    apply startswith_g_not_d in Hgn. congruence. }
  assert (Hg : forall lr loss n,
            String.prefix "discriminator/" n = true ->
            train_op tf lr loss (List.filter (fun v => startswith v "g") t_vars) e !! n
            = vars e !! n).
  { intros lr loss n Hn. apply apply_updates_frame.
    rewrite elem_of_filter_startswith. intros [_ Hs].
    assert (Hdn : startswith n "d" = true).
    { unfold startswith. refine (prefix_trans _ _ _ _ Hn). reflexivity. }
    apply startswith_d_not_g in Hdn. congruence. }
  assert (Hr : forall lr loss x,
            reconstruction tf cfg ""
              (train_op tf lr loss (List.filter (fun v => startswith v "g") t_vars) e) x
            = reconstruction tf cfg "" (vars e) x).
  { intros lr loss x. unfold reconstruction.
    rewrite (discriminator_fwd_local tf cfg "" _ (vars e) x (Hg lr loss)). reflexivity. }
  repeat split; try (apply generator_fwd_local; apply Hd).
  - intros x. apply Hr.
  - rewrite Hr. reflexivity.
Qed.

Lemma steps_do_not_interfere_witness :
  build_magan toy default_config root_scope [] = (Ok toy_model, toy_store) /\
  g toy_model (with_vars toy_env (d_op toy_model toy_env)) = g toy_model toy_env /\
  d_real_loss toy_model (with_vars toy_env (g_op toy_model toy_env)) =
    d_real_loss toy_model toy_env.
Proof.
  assert (Hb : build_magan toy default_config root_scope [] = (Ok toy_model, toy_store))
    by reflexivity.
  split; [exact Hb|].
  destruct (steps_do_not_interfere toy default_config [] toy_model toy_store Hb toy_env)
    as (_ & Hg & _ & _ & _ & Hl).
  split; [exact Hg | exact Hl].
Defined.

(** ** Building below the top level *)

Lemma filter_none (f : string -> bool) (l : list string) :
  Forall (fun n => f n = false) l -> List.filter f l = [].
Proof.
  induction l as [|a l IH]; intros H; simpl; [reflexivity|].
  inversion H; subst. rewrite H2. apply IH. assumption.
Qed.

(** Names that share a non-empty prefix share their first letter: one
    of the two groups is empty. *)
Lemma one_group_empty (p : string) (l : list string) :
  p <> "" ->
  Forall (fun n => String.prefix p n = true) l ->
  List.filter (fun v => startswith v "d") l = [] \/
  List.filter (fun v => startswith v "g") l = [].
Proof.
  intros Hp Hl. destruct (String.prefix "d" p) eqn:Hd.
  - right. apply filter_none. eapply Forall_impl; [exact Hl|].
    intros n Hn. simpl. apply startswith_d_not_g. unfold startswith.
    exact (prefix_trans _ _ _ Hd Hn).
  - left. apply filter_none. eapply Forall_impl; [exact Hl|].
    intros n Hn. simpl. unfold startswith.
    destruct (String.prefix "d" n) eqn:Hdn; [exfalso | reflexivity].
    destruct (prefix_comparable _ _ _ Hdn Hn) as [H|H]; [congruence|].
    destruct p as [|c s]; [contradiction|].
    apply prefix_cons in H as [-> H].
    destruct s; [|discriminate H]. discriminate Hd.
Qed.

Lemma discriminator_store_under tf p :
  Forall (fun v => String.prefix (p +:+ "discriminator" +:+ "/") (v_name v) = true)
         (discriminator_store tf p).
Proof.
  unfold discriminator_store. apply Forall_app. split.
  - eapply Forall_impl; [apply encoder_store_under|]. intros v Hv.
    exact (prefix_trans _ _ _ (prefix_app _ _) Hv).
  - eapply Forall_impl; [apply decoder_store_under|]. intros v Hv.
    exact (prefix_trans _ _ _ (prefix_app _ _) Hv).
Qed.

(** X13: [build_magan] works at top level only.  Inside any named
    variable scope every variable name starts with that scope's name,
    so the groups chosen by the first letter "d" and "g" cannot both
    be non-empty: on an empty graph the networks are built, and then
    an optimizer is given an empty [var_list] and the construction
    raises [ValueError]. *)
Theorem build_magan_nested_fails tf cfg sc :
  well_formed tf ->
  spec_fc_unit_ok cfg ->
  sc_reuse sc = false ->
  sc_prefix sc <> "" ->
  fst (build_magan tf cfg sc []) = Raise ValueError.
Proof.
  intros Hwf Hs Hr Hp. apply assertion_spec in Hs. unfold build_magan.
  erewrite bind_run by
    (apply generator_fresh; [exact Hs | exact Hwf | exact Hr | constructor]).
  erewrite bind_run by (apply generator_reuse; [exact Hs | apply present_self]).
  erewrite bind_run.
  2:{ apply discriminator_fresh; [exact Hwf | exact Hr |].
      apply (prefix_fresh_disjoint (sc_prefix sc) "generator/" "discriminator/");
        [reflexivity|].
      apply (generator_store_under tf (sc_prefix sc)). }
  erewrite bind_run by (apply discriminator_reuse; apply present_self).
  erewrite bind_run by reflexivity.
  cbv beta zeta.
  assert (Hnames : Forall (fun n => String.prefix (sc_prefix sc) n = true)
                     (trainable_variables
                        (([] ++ generator_store tf (sc_prefix sc)) ++
                         discriminator_store tf (sc_prefix sc)))).
  { apply trainable_variables_Forall. apply Forall_app. split.
    - eapply Forall_impl; [apply (generator_store_under tf (sc_prefix sc))|].
      intros v Hv. exact (prefix_trans _ _ _ (prefix_app _ _) Hv).
    - eapply Forall_impl; [apply (discriminator_store_under tf (sc_prefix sc))|].
      intros v Hv. exact (prefix_trans _ _ _ (prefix_app _ _) Hv). }
  destruct (one_group_empty _ _ Hp Hnames) as [Hd|Hg].
  - rewrite Hd. reflexivity.
  - rewrite Hg.
    destruct (List.filter (fun v => startswith v "d") _) as [|v l]; reflexivity.
Qed.

Lemma build_magan_nested_fails_witness :
  well_formed toy /\
  spec_fc_unit_ok default_config /\
  sc_reuse model_scope = false /\
  sc_prefix model_scope <> "" /\
  fst (build_magan toy default_config model_scope []) = Raise ValueError.
Proof.
  assert (Hwf : well_formed toy).
  { intros []; apply (bool_decide_unpack _); vm_compute; exact I. }
  assert (Hok : spec_fc_unit_ok default_config) by reflexivity.
  assert (Hp : sc_prefix model_scope <> "") by discriminate.
  split; [exact Hwf|]. split; [exact Hok|]. split; [reflexivity|]. split; [exact Hp|].
  apply (build_magan_nested_fails toy default_config model_scope Hwf Hok);
    [reflexivity | exact Hp].
Defined.

(** ** The assertion and the reshape *)

Lemma assertion_reshape_width_witness :
  (fc_unit odd_config =? 4 * 4 * gf_dim odd_config / 2)%Z = true /\
  ((fc_unit odd_config = 4 * 4 * (gf_dim odd_config / 2))%Z <->
   Z.even (gf_dim odd_config) = true).
Proof.
  split; [reflexivity|].
  apply (assertion_reshape_width odd_config). reflexivity.
Defined.

(** ** More on the losses *)

(** X15: while the reconstruction error of the generated images does
    not exceed the margin, the hinge is active:
    [d_loss = d_real_loss + (m - d_fake_loss)]. *)
Theorem d_loss_within_margin tf cfg sc st M st' :
  build_magan tf cfg sc st = (Ok M, st') ->
  forall e : Env,
    d_fake_loss M e <= feed_m e ->
    d_loss M e = d_real_loss M e + (feed_m e - d_fake_loss M e).
Proof.
  intros H e. apply build_magan_Ok in H. subst M. simpl. intros Hm.
  rewrite Rmax_right; lra.
Qed.

Lemma toy_d_fake_loss_zero_noise (e : Env) :
  feed_z e = [0] -> d_fake_loss toy_model e = 1 / 4.
Proof.
  intros Hz.
  cbv [d_fake_loss toy_model magan_model
       generator_fwd reconstruction discriminator_fwd encoder_fwd decoder_fwd
       conv_layer deconv_layer bn_layer dense_layer toy
       conv2d_op deconv2d_op dense_op batch_norm_op reshape_op snd
       tf_tanh leaky_relu sigmoid].
  rewrite Hz. cbv [map].
  rewrite !leaky_relu1_0, tanh1_0, !leaky_relu1_0, sigmoid1_0.
  unfold mse_loss, reduce_mean, squared_difference, reduce_sum. simpl. lra.
Qed.

Lemma d_loss_within_margin_witness :
  build_magan toy default_config root_scope [] = (Ok toy_model, toy_store) /\
  d_fake_loss toy_model (with_margin toy_env 1) <= feed_m (with_margin toy_env 1) /\
  d_loss toy_model (with_margin toy_env 1) =
    d_real_loss toy_model (with_margin toy_env 1) +
    (feed_m (with_margin toy_env 1) - d_fake_loss toy_model (with_margin toy_env 1)).
Proof.
  assert (Hm : d_fake_loss toy_model (with_margin toy_env 1)
               <= feed_m (with_margin toy_env 1)).
  { rewrite (toy_d_fake_loss_zero_noise (with_margin toy_env 1) eq_refl). simpl. lra. }
  split; [reflexivity|]. split; [exact Hm|].
  apply (d_loss_within_margin toy default_config root_scope [] toy_model toy_store);
    [reflexivity | exact Hm].
Defined.

(** X16: for the same images, noise and variables, [d_loss] never
    decreases when the margin is raised. *)
Theorem d_loss_monotone_in_margin tf cfg sc st M st' :
  build_magan tf cfg sc st = (Ok M, st') ->
  forall (e : Env) (m1 m2 : R),
    m1 <= m2 ->
    d_loss M (with_margin e m1) <= d_loss M (with_margin e m2).
Proof.
  intros H e m1 m2 Hm. apply build_magan_Ok in H. subst M. simpl.
  set (f := mse_loss _ _). set (r := mse_loss _ _).
  unfold Rmax. destruct (Rle_dec 0 (m1 - r)), (Rle_dec 0 (m2 - r)); lra.
Qed.

Lemma d_loss_monotone_in_margin_witness :
  build_magan toy default_config root_scope [] = (Ok toy_model, toy_store) /\
  1 / 8 <= 1 /\
  d_loss toy_model (with_margin toy_env (1 / 8)) <=
  d_loss toy_model (with_margin toy_env 1).
Proof.
  assert (Hm : 1 / 8 <= 1) by lra.
  split; [reflexivity|]. split; [exact Hm|].
  apply (d_loss_monotone_in_margin toy default_config root_scope [] toy_model toy_store);
    [reflexivity | exact Hm].
Defined.

(** X17: which placeholders a fetched value needs.  With the same
    variable values, [d_real_loss] is decided by the image batch alone
    (neither the noise nor the margin matters), and the generated
    images, in both modes, [d_fake_loss] and [g_loss] by the noise
    batch alone (neither the images nor the margin matters). *)
Theorem losses_feed_dependencies tf cfg sc st M st' :
  build_magan tf cfg sc st = (Ok M, st') ->
  forall e1 e2 : Env,
    vars e1 = vars e2 ->
    (feed_x e1 = feed_x e2 -> d_real_loss M e1 = d_real_loss M e2) /\
    (feed_z e1 = feed_z e2 ->
     g M e1 = g M e2 /\ g_test M e1 = g_test M e2 /\
     d_fake_loss M e1 = d_fake_loss M e2 /\ g_loss M e1 = g_loss M e2).
Proof.
  intros H e1 e2 Hv. apply build_magan_Ok in H. subst M. simpl. split.
  - intros Hx. rewrite Hv, Hx. reflexivity.
  - intros Hz. rewrite Hv, Hz. repeat split; reflexivity.
Qed.

Lemma losses_feed_dependencies_witness :
  build_magan toy default_config root_scope [] = (Ok toy_model, toy_store) /\
  vars toy_env = vars (with_margin toy_env 1) /\
  g_loss toy_model toy_env = g_loss toy_model (with_margin toy_env 1) /\
  d_real_loss toy_model toy_env = d_real_loss toy_model (with_margin toy_env 1).
Proof.
  assert (Hb : build_magan toy default_config root_scope [] = (Ok toy_model, toy_store))
    by reflexivity.
  split; [exact Hb|]. split; [reflexivity|].
  destruct (losses_feed_dependencies toy default_config root_scope [] toy_model toy_store
              Hb toy_env (with_margin toy_env 1) eq_refl) as [Hx Hz].
  destruct (Hz eq_refl) as (_ & _ & _ & Hg).
  split; [exact Hg | exact (Hx eq_refl)].
Defined.
